(** * Ephemeral two-party chat rooms: admission, sessions, message log

    A shallow embedding of the server side of the chat application:
    - [src/proxy.ts]: the edge middleware that admits a browser to a room,
    - the [authMiddleware] plugin that authenticates every API request,
    - [src/app/api/[[...slugs]]/route.ts]: the room and message handlers.

    The handlers talk to a Redis store and to a realtime channel.  Each
    [await]ed call is one atomic command; a handler is a finite tree of
    such commands ([Prog]), which can be run to completion on its own
    ([run]) or interleaved with other requests and with the passing of
    time ([sys_step]). *)

From Stdlib Require Import ZArith String Ascii List Lia Bool DecimalString.
From Stdlib Require Import DecimalPos DecimalZ.
From stdpp Require Import base option list strings gmap.

Local Open Scope string_scope.
Local Open Scope Z_scope.

(** ** JavaScript values *)

(** The values that travel through the store client and [JSON.parse].
    Numbers are the integers (time stamps, counts); an object is its list
    of own properties in insertion order. *)
#[warnings="-register-all"]
Inductive JsVal : Type :=
| JUndefined
| JNull
| JBool (b : bool)
| JNum (n : Z)
| JStr (s : string)
| JArr (items : list JsVal)
| JObj (fields : list (string * JsVal)).

(** [!v] is false on truthy values. *)
Definition truthy (v : JsVal) : bool :=
  match v with
  | JUndefined | JNull => false
  | JBool b => b
  | JNum n => negb (n =? 0)
  | JStr s => negb (String.eqb s "")
  | JArr _ | JObj _ => true
  end.

(** [v === s] for a string [s]. *)
Definition is_str (s : string) (v : JsVal) : bool :=
  match v with
  | JStr s' => String.eqb s' s
  | _ => false
  end.

(** [arr.includes(s)] for a string [s]. *)
Definition includes (arr : list JsVal) (s : string) : bool :=
  existsb (is_str s) arr.

(** [fields[name]] of a property list; [undefined] when absent. *)
Fixpoint assoc (name : string) (fields : list (string * JsVal)) : JsVal :=
  match fields with
  | [] => JUndefined
  | (k, v) :: rest => if String.eqb k name then v else assoc name rest
  end.

(** Assignment of one property: an existing property keeps its place, a
    new one goes last. *)
Fixpoint obj_set (name : string) (v : JsVal) (fields : list (string * JsVal))
  : list (string * JsVal) :=
  match fields with
  | [] => [(name, v)]
  | (k, x) :: rest =>
      if String.eqb k name then (k, v) :: rest else (k, x) :: obj_set name v rest
  end.

(** Decimal spelling of an array index, the property name it has. *)
Definition index_name (i : nat) : string :=
  NilZero.string_of_uint (Nat.to_uint i).

Fixpoint indexed {A} (f : A -> JsVal) (i : nat) (l : list A) : list (string * JsVal) :=
  match l with
  | [] => []
  | x :: rest => (index_name i, f x) :: indexed f (S i) rest
  end.

Fixpoint chars (s : string) : list string :=
  match s with
  | EmptyString => []
  | String c rest => String c EmptyString :: chars rest
  end.

(** The own enumerable properties copied by [{...v}]. *)
Definition spread (v : JsVal) : list (string * JsVal) :=
  match v with
  | JObj fields => fields
  | JArr items => indexed (fun x => x) 0 items
  | JStr s => indexed JStr 0 (chars s)
  | _ => []
  end.

(** [v.name]: a property read.  It throws on [null] and [undefined]
    ([None]); primitives and arrays have no such own property. *)
Definition get_prop (name : string) (v : JsVal) : option JsVal :=
  match v with
  | JUndefined | JNull => None
  | JObj fields => Some (assoc name fields)
  | _ => Some JUndefined
  end.

(** ** The store *)

(** A Redis key holds a hash, a list, or something the handlers never look
    into (the stream the realtime channel keeps under the bare room id). *)
Inductive RVal : Type :=
| VHash (h : gmap string JsVal)
| VList (l : list JsVal)
| VOther.

(** A key with its expiration instant, if it has one. *)
Record Entry : Type := mkEntry { e_val : RVal; e_exp : option Z }.

(** An event published on a realtime channel. *)
Record Event : Type := mkEvent {
  ev_channel : string;
  ev_name : string;
  ev_payload : JsVal
}.

(** The world outside a handler: the store clock in whole seconds, the
    key space, and the events published so far, oldest first. *)
Record World : Type := mkWorld {
  now : Z;
  keys : gmap string Entry;
  events : list Event
}.

(** A key whose expiration instant has been reached is gone, purged or
    not. *)
Definition alive (t : Z) (e : Entry) : bool :=
  match e_exp e with
  | None => true
  | Some deadline => t <? deadline
  end.

Definition find (w : World) (k : string) : option Entry :=
  match keys w !! k with
  | Some e => if alive (now w) e then Some e else None
  | None => None
  end.

Definition put (w : World) (k : string) (e : Entry) : World :=
  mkWorld (now w) (<[k := e]> (keys w)) (events w).

Definition drop (w : World) (k : string) : World :=
  mkWorld (now w) (delete k (keys w)) (events w).

Definition publish (w : World) (ev : Event) : World :=
  mkWorld (now w) (keys w) (events w ++ [ev])%list.

Definition tick (secs : Z) (w : World) : World :=
  mkWorld (now w + Z.max 0 secs) (keys w) (events w).

(** ** Commands *)

(** The calls a handler awaits: Redis commands and the channel's [emit]. *)
Inductive Cmd : Type :=
| HGETALL (k : string)
| HGET (k field : string)
| HSET (k : string) (fields : list (string * JsVal))
| EXPIRE (k : string) (secs : Z)
| TTL (k : string)
| EXISTS (k : string)
| DEL (k : string)
| RPUSH (k : string) (v : JsVal)
| LRANGE (k : string)
| EMIT (channel name : string) (payload : JsVal).

(** What each call resolves to. *)
Definition Res (c : Cmd) : Type :=
  match c with
  | HGETALL _ => option (gmap string JsVal)
  | HGET _ _ => JsVal
  | LRANGE _ => list JsVal
  | EMIT _ _ _ => unit
  | _ => Z
  end.

Definition hash_set (fields : list (string * JsVal)) (h : gmap string JsVal)
  : gmap string JsVal :=
  fold_left (fun acc kv => <[kv.1 := kv.2]> acc) fields h.

(** One command against the store, after the Redis command reference:
    a reply and the new world, or [None] when the key holds the wrong kind
    of value (the client call rejects).
    - [HGETALL]: the client turns the reply of a missing key into [null].
    - [HSET] keeps the expiration of a live key and creates a missing key
      without one.
    - [EXPIRE] with a timeout that is not positive deletes the key.
    - [TTL] answers [-2] for a missing key and [-1] for a key that does
      not expire. *)
Definition exec (c : Cmd) (w : World) : option (World * Res c) :=
  match c return option (World * Res c) with
  | HGETALL k =>
      match find w k with
      | None => Some (w, None)
      | Some e =>
          match e_val e with
          | VHash h => Some (w, if decide (h = ∅) then None else Some h)
          | _ => None
          end
      end
  | HGET k field =>
      match find w k with
      | None => Some (w, JNull)
      | Some e =>
          match e_val e with
          | VHash h => Some (w, default JNull (h !! field))
          | _ => None
          end
      end
  | HSET k fields =>
      match find w k with
      | None => Some (put w k (mkEntry (VHash (hash_set fields ∅)) None),
                      Z.of_nat (size (hash_set fields ∅)))
      | Some e =>
          match e_val e with
          | VHash h =>
              Some (put w k (mkEntry (VHash (hash_set fields h)) (e_exp e)),
                    Z.of_nat (size (hash_set fields h)) - Z.of_nat (size h))
          | _ => None
          end
      end
  | EXPIRE k secs =>
      match find w k with
      | None => Some (w, 0)
      | Some e =>
          if secs <=? 0 then Some (drop w k, 1)
          else Some (put w k (mkEntry (e_val e) (Some (now w + secs))), 1)
      end
  | TTL k =>
      match find w k with
      | None => Some (w, -2)
      | Some e =>
          match e_exp e with
          | None => Some (w, -1)
          | Some deadline => Some (w, deadline - now w)
          end
      end
  | EXISTS k =>
      match find w k with
      | None => Some (w, 0)
      | Some _ => Some (w, 1)
      end
  | DEL k =>
      match find w k with
      | None => Some (drop w k, 0)
      | Some _ => Some (drop w k, 1)
      end
  | RPUSH k v =>
      match find w k with
      | None => Some (put w k (mkEntry (VList [v]) None), 1)
      | Some e =>
          match e_val e with
          | VList l =>
              Some (put w k (mkEntry (VList (l ++ [v])%list) (e_exp e)),
                    Z.of_nat (length (l ++ [v])%list))
          | _ => None
          end
      end
  | LRANGE k =>
      match find w k with
      | None => Some (w, [])
      | Some e =>
          match e_val e with
          | VList l => Some (w, l)
          | _ => None
          end
      end
  | EMIT channel name payload =>
      Some (publish w (mkEvent channel name payload), tt)
  end.

(** ** Handlers as trees of commands *)

(** What a handler can throw.  [AuthError] and [Error] carry the message
    of the [throw] in the source; [ValidationError] is the route schema
    refusing the request; [StoreError] is a rejected store call. *)
Inductive Exn : Type :=
| AuthError (msg : string)
| Error (msg : string)
| ValidationError
| StoreError.

(** An [async] handler: it returns, throws, awaits one call and goes on
    with its reply, or awaits [Promise.all] of several calls (whose
    replies the source never reads) and goes on. *)
Inductive Prog (R : Type) : Type :=
| Ret (r : R)
| Throw (e : Exn)
| Call (c : Cmd) (k : Res c -> Prog R)
| All (cs : list Cmd) (k : Prog R).

Arguments Ret {R} r.
Arguments Throw {R} e.
Arguments Call {R} c k.
Arguments All {R} cs k.

Fixpoint bind {A B} (p : Prog A) (f : A -> Prog B) : Prog B :=
  match p with
  | Ret a => f a
  | Throw e => Throw e
  | Call c k => Call c (fun x => bind (k x) f)
  | All cs k => All cs (bind k f)
  end.

Notation "'let!' x := p 'in' q" := (bind p (fun x => q))
  (at level 10, x name, p at level 100, q at level 200, only parsing).
Notation "'await!' x := c 'in' q" := (Call c (fun x => q))
  (at level 10, x name, c at level 100, q at level 200, only parsing).

(** The commands of a [Promise.all] in the order written. *)
Fixpoint exec_all (cs : list Cmd) (w : World) : option World :=
  match cs with
  | [] => Some w
  | c :: rest =>
      match exec c w with
      | Some (w', _) => exec_all rest w'
      | None => None
      end
  end.

(** A handler run from start to end with nothing in between. *)
Fixpoint run {R} (p : Prog R) (w : World) : World * (Exn + R) :=
  match p with
  | Ret r => (w, inr r)
  | Throw e => (w, inl e)
  | Call c k =>
      match exec c w with
      | Some (w', x) => run (k x) w'
      | None => (w, inl StoreError)
      end
  | All cs k =>
      match exec_all cs w with
      | Some w' => run k w'
      | None => (w, inl StoreError)
      end
  end.

(** The handler that is left when the calls [rest] of a [Promise.all]
    are still pending. *)
Definition pending {R} (rest : list Cmd) (k : Prog R) : Prog R :=
  match rest with
  | [] => k
  | _ => All rest k
  end.

(** One command of a handler.  In a [Promise.all] the store may serve the
    pending calls in any order: [choice] picks the one served now.  The
    command served is reported next to the new state; a finished handler
    has no step.  A rejected call ends the handler; the calls the source
    puts in a [Promise.all], [DEL] and [EXPIRE], are never rejected. *)
Fixpoint step {R} (choice : nat) (p : Prog R) (w : World)
  : option (World * Prog R * Cmd) :=
  match p with
  | Ret _ | Throw _ => None
  | Call c k =>
      match exec c w with
      | Some (w', x) => Some (w', k x, c)
      | None => Some (w, Throw StoreError, c)
      end
  | All [] k => step choice k w
  | All cs k =>
      match cs !! choice with
      | None => None
      | Some c =>
          match exec c w with
          | Some (w', _) =>
              Some (w', pending (delete choice cs) k, c)
          | None => Some (w, Throw StoreError, c)
          end
      end
  end.

(** A handler advanced by a schedule of choices, one per step; a choice
    that names no pending call is passed over.  The commands served in
    order, the handler as far as it got, and the world it left. *)
Fixpoint steps {R} (choices : list nat) (p : Prog R) (w : World)
  : list Cmd * Prog R * World :=
  match choices with
  | [] => ([], p, w)
  | c :: rest =>
      match step c p w with
      | Some (w', p', cmd) =>
          let '(tr, q, w'') := steps rest p' w' in (cmd :: tr, q, w'')
      | None => steps rest p w
      end
  end.

Definition finished {R} (p : Prog R) : bool :=
  match p with
  | Ret _ | Throw _ => true
  | _ => false
  end.

(** ** The application *)

Definition ROOM_TTL_SECONDS : Z := 60 * 10.

Definition meta_key (roomId : string) : string := "meta:" +:+ roomId.
Definition messages_key (roomId : string) : string := "messages:" +:+ roomId.
Definition history_key (roomId : string) : string := "history:" +:+ roomId.

(** [Date.now().toString()]. *)
Definition show_Z (n : Z) : string := NilZero.string_of_int (Z.to_int n).

(** An optional string that is neither missing nor empty. *)
Definition present (o : option string) : option string :=
  match o with
  | Some s => if String.eqb s "" then None else Some s
  | None => None
  end.

Fixpoint strip_prefix (p s : string) : option string :=
  match p, s with
  | EmptyString, _ => Some s
  | String a p', String b s' => if Ascii.eqb a b then strip_prefix p' s' else None
  | String _ _, EmptyString => None
  end.

Fixpoint has_slash (s : string) : bool :=
  match s with
  | EmptyString => false
  | String c rest => Ascii.eqb c "/" || has_slash rest
  end.

(** [pathname.match(/^\/room\/([^/]+)$/)], its first group. *)
Definition room_match (pathname : string) : option string :=
  match strip_prefix "/room/" pathname with
  | Some r => if negb (String.eqb r "") && negb (has_slash r) then Some r else None
  | None => None
  end.

(** What the edge middleware answers: a redirect, or the page itself,
    with the session cookie it sets if it sets one. *)
Inductive PageResponse : Type :=
| Redirect (url : string)
| Next (set_cookie : option string).

(** The session descriptor the auth middleware derives. *)
Record Session : Type := mkSession {
  s_roomId : string;
  s_token : string;
  s_connected : list JsVal
}.

(** An API request after parsing: the [roomId] query parameter, the
    [x-auth-token] cookie, and the JSON body. *)
Record ApiRequest : Type := mkApiRequest {
  q_roomId : option string;
  cookie : option string;
  body : JsVal
}.

Section Handlers.

(** [JSON.parse] ([None] when it throws) and [JSON.stringify]. *)
Variable JSON_parse : string -> option JsVal.
Variable JSON_stringify : JsVal -> string.

(** *** src/proxy.ts *)

(** The [connected] array the proxy works with, from [meta.connected]. *)
Definition proxy_connected (c : JsVal) : list JsVal :=
  if negb (truthy c) then []
  else
    match c with
    | JStr s =>
        match JSON_parse s with
        | Some (JArr parsed) => parsed
        | Some _ => []
        | None => [c]
        end
    | JArr items => items
    | _ => []
    end.

(** [existingToken && connected.includes(existingToken)]. *)
Definition recognized (existingToken : option string) (connected : list JsVal) : bool :=
  match present existingToken with
  | Some t => includes connected t
  | None => false
  end.

(** The middleware, given the request path, the [x-auth-token] cookie and
    the token [nanoid()] returns if it is called. *)
Definition proxy (pathname : string) (existingToken : option string) (token : string)
  : Prog PageResponse :=
  match room_match pathname with
  | None => Ret (Redirect "/")
  | Some roomId =>
      await! meta := HGETALL (meta_key roomId) in
      match meta with
      | None => Ret (Redirect "/?error=room-not-found")
      | Some m =>
          let connected := proxy_connected (default JUndefined (m !! "connected")) in
          if recognized existingToken connected then Ret (Next None)
          else if (2 <=? length connected)%nat then Ret (Redirect "/?error=room-full")
          else
            let updatedConnected := (connected ++ [JStr token])%list in
            await! _ := HSET (meta_key roomId)
                          [("connected", JStr (JSON_stringify (JArr updatedConnected)))] in
            Ret (Next (Some token))
      end
  end.

(** *** The auth middleware *)

(** The [connected] array the middleware works with, from the reply of
    [hget]. *)
Definition auth_connected (connectedRaw : JsVal) : list JsVal :=
  match connectedRaw with
  | JArr items => items
  | _ =>
      if truthy connectedRaw then
        match connectedRaw with
        | JStr s =>
            match JSON_parse s with
            | Some (JArr parsed) => parsed
            | Some _ => []
            | None => []
            end
        | _ => []
        end
      else []
  end.

(** The [derive] step of the middleware. *)
Definition authMiddleware (req : ApiRequest) : Prog Session :=
  match present (q_roomId req), present (cookie req) with
  | Some roomId, Some token =>
      await! connectedRaw := HGET (meta_key roomId) "connected" in
      let connected := auth_connected connectedRaw in
      if includes connected token
      then Ret (mkSession roomId token connected)
      else Throw (AuthError "Invalid token")
  | _, _ => Throw (AuthError "Unauthorized")
  end.

(** The [onError] hook the plugin registers: the status and body it
    gives the response to an [AuthError]; any other error it leaves to
    the framework. *)
Definition onError (e : Exn) : option (Z * JsVal) :=
  match e with
  | AuthError _ => Some (401, JObj [("error", JStr "Unauthorized")])
  | _ => None
  end.

(** How far a hook of an Elysia plugin reaches: registered with no [as]
    it stays in the instance that registers it; with [as: "scoped"] it
    reaches the instance that [use]s the plugin as well, with
    [as: "global"] every instance. *)
Inductive HookScope : Type :=
| LocalHook
| ScopedHook
| GlobalHook.

Definition reaches_user (s : HookScope) : bool :=
  match s with
  | LocalHook => false
  | ScopedHook | GlobalHook => true
  end.

(** The plugin's hooks as the source registers them:
    [.onError(({code, set}) => ...)] and [.derive({as: "scoped"}, ...)]. *)
Definition onError_scope : HookScope := LocalHook.
Definition derive_scope : HookScope := ScopedHook.

(** The error hooks of a route of [rooms] or [messages]: the two
    instances register none of their own, so a route has those of the
    plugin that reach the instance using it. *)
Definition route_error_hooks : list (Exn -> option (Z * JsVal)) :=
  if reaches_user onError_scope then [onError] else [].

(** The response to an error a handler or a [derive] throws: the answer
    of the first hook that gives one; with none, the framework's own,
    which for an error thrown with a message and no status is status 500
    with the message as body.  What it answers to a schema refusal or to
    a failure of the store client is left out ([None]). *)
Fixpoint error_response (hooks : list (Exn -> option (Z * JsVal))) (e : Exn)
  : option (Z * JsVal) :=
  match hooks with
  | hook :: rest =>
      match hook e with
      | Some r => Some r
      | None => error_response rest e
      end
  | [] =>
      match e with
      | AuthError msg | Error msg => Some (500, JStr msg)
      | ValidationError | StoreError => None
      end
  end.

(** *** route.ts: rooms *)

(** [POST /room/create], given what [nanoid()] and [Date.now()] return. *)
Definition room_create (roomId : string) (createdAt : Z) : Prog JsVal :=
  await! _ := HSET (meta_key roomId)
                [("connected", JStr (JSON_stringify (JArr [])));
                 ("createdAt", JStr (show_Z createdAt))] in
  await! _ := EXPIRE (meta_key roomId) ROOM_TTL_SECONDS in
  Ret (JObj [("roomId", JStr roomId)]).

(** [GET /room/ttl]. *)
Definition room_ttl (auth : Session) : Prog Z :=
  await! ttl := TTL (meta_key (s_roomId auth)) in
  Ret (if 0 <? ttl then ttl else 0).

(** [DELETE /room]. *)
Definition room_destroy (auth : Session) : Prog unit :=
  await! _ := EMIT (s_roomId auth) "chat.destroy" (JObj [("isDestroyed", JBool true)]) in
  All [DEL (s_roomId auth);
       DEL (meta_key (s_roomId auth));
       DEL (messages_key (s_roomId auth))]
      (Ret tt).

(** *** route.ts: messages *)

(** The body schema: [sender] a string of at most 100 characters, [text]
    a string of at most 1000. *)
Definition parse_body (b : JsVal) : option (string * string) :=
  match b with
  | JObj fields =>
      match assoc "sender" fields, assoc "text" fields with
      | JStr sender, JStr text =>
          if (String.length sender <=? 100)%nat && (String.length text <=? 1000)%nat
          then Some (sender, text)
          else None
      | _, _ => None
      end
  | _ => None
  end.

Definition mk_message (id sender text : string) (timestamp : Z) (roomId token : string)
  : JsVal :=
  JObj [("id", JStr id); ("sender", JStr sender); ("text", JStr text);
        ("timestamp", JNum timestamp); ("roomId", JStr roomId);
        ("token", JStr token)].

(** [POST /messages], given the validated body and what [nanoid()] and
    [Date.now()] return. *)
Definition messages_post (auth : Session) (sender text : string)
    (id : string) (timestamp : Z) : Prog JsVal :=
  let roomId := s_roomId auth in
  await! roomExists := EXISTS (meta_key roomId) in
  if roomExists =? 0 then Throw (Error "Room not found")
  else
    let message := mk_message id sender text timestamp roomId (s_token auth) in
    await! _ := RPUSH (messages_key roomId) (JStr (JSON_stringify message)) in
    await! _ := EMIT roomId "chat.message" message in
    await! remaining := TTL (meta_key roomId) in
    All [EXPIRE (messages_key roomId) remaining;
         EXPIRE (history_key roomId) remaining;
         EXPIRE roomId remaining]
        (Ret (JObj [("message", message)])).

(** [raw != null]. *)
Definition not_nullish (v : JsVal) : bool :=
  match v with
  | JUndefined | JNull => false
  | _ => true
  end.

(** The decoding of one log entry: a string is parsed, an object is
    taken as it is, anything else is dropped; a throw drops it too. *)
Definition decode (raw : JsVal) : option JsVal :=
  match raw with
  | JStr s => JSON_parse s
  | JObj _ | JArr _ => Some raw
  | _ => None
  end.

(** [{...parsed, token: parsed.token === auth.token ? auth.token : undefined}] *)
Definition mask (token : string) (parsed : JsVal) : option JsVal :=
  match get_prop "token" parsed with
  | None => None
  | Some t =>
      Some (JObj (obj_set "token"
                    (if is_str token t then JStr token else JUndefined)
                    (spread parsed)))
  end.

Definition present_entry (token : string) (raw : JsVal) : option JsVal :=
  decode raw ≫= mask token.

(** The [filter], [map], [filter] chain over the raw log. *)
Definition masked_messages (token : string) (messagesRaw : list JsVal) : list JsVal :=
  omap (present_entry token) (List.filter not_nullish messagesRaw).

(** [GET /messages]. *)
Definition messages_get (auth : Session) (req : ApiRequest) : Prog JsVal :=
  let roomId := if String.eqb (s_roomId auth) ""
                then default "" (q_roomId req) else s_roomId auth in
  await! messagesRaw := LRANGE (messages_key roomId) in
  let messages := masked_messages (s_token auth) messagesRaw in
  Ret (JObj [("messages", JArr messages)]).

(** *** Requests *)

(** A request with everything it brings from outside: its inputs and the
    values the random and clock calls of its handler return. *)
Inductive Request : Type :=
| Visit (pathname : string) (existingToken : option string) (token : string)
| RoomCreate (roomId : string) (createdAt : Z)
| RoomTtl (req : ApiRequest)
| RoomDestroy (req : ApiRequest)
| MessagesPost (req : ApiRequest) (id : string) (timestamp : Z)
| MessagesGet (req : ApiRequest).

Inductive Reply : Type :=
| Page (r : PageResponse)
| Json (v : JsVal).

(** The route with its middleware: the session is derived first, the
    schema is checked next, the handler runs last. *)
Definition serve (r : Request) : Prog Reply :=
  match r with
  | Visit pathname existingToken token =>
      let! p := proxy pathname existingToken token in Ret (Page p)
  | RoomCreate roomId createdAt =>
      let! v := room_create roomId createdAt in Ret (Json v)
  | RoomTtl req =>
      let! auth := authMiddleware req in
      let! ttl := room_ttl auth in Ret (Json (JObj [("ttl", JNum ttl)]))
  | RoomDestroy req =>
      let! auth := authMiddleware req in
      let! _ := room_destroy auth in Ret (Json JUndefined)
  | MessagesPost req id timestamp =>
      let! auth := authMiddleware req in
      match parse_body (body req) with
      | None => Throw ValidationError
      | Some (sender, text) =>
          let! v := messages_post auth sender text id timestamp in Ret (Json v)
      end
  | MessagesGet req =>
      let! auth := authMiddleware req in
      let! v := messages_get auth req in Ret (Json v)
  end.

(** The response of an API route: status 200 with the value the handler
    returns, or the response to what was thrown.  A page is not answered
    by the API ([None]). *)
Definition respond (o : Exn + Reply) : option (Z * JsVal) :=
  match o with
  | inl e => error_response route_error_hooks e
  | inr (Json v) => Some (200, v)
  | inr (Page _) => None
  end.

(** *** Requests in flight *)

(** The server with several requests in flight: the world, the handler
    of each request as far as it has got, and the commands served so
    far with the request each belongs to, oldest first. *)
Record Sys : Type := mkSys {
  world : World;
  pool : list (Prog Reply);
  served : list (nat * Cmd)
}.

(** What can happen next: a request arrives, the store serves the next
    command of a request in flight, or time passes. *)
Inductive Act : Type :=
| Arrive (r : Request)
| Serve (tid choice : nat)
| Elapse (secs : Z).

Definition sys_step (s : Sys) (a : Act) : Sys :=
  match a with
  | Arrive r => mkSys (world s) (pool s ++ [serve r])%list (served s)
  | Serve tid choice =>
      match pool s !! tid with
      | None => s
      | Some p =>
          match step choice p (world s) with
          | None => s
          | Some (w', p', c) =>
              mkSys w' (<[tid := p']> (pool s)) (served s ++ [(tid, c)])%list
          end
      end
  | Elapse secs => mkSys (tick secs (world s)) (pool s) (served s)
  end.

Definition sys_run (s : Sys) (acts : list Act) : Sys := fold_left sys_step acts s.

(** The reply of request [tid], once its handler has finished. *)
Definition reply_of (s : Sys) (tid : nat) : option (Exn + Reply) :=
  match pool s !! tid with
  | Some (Ret r) => Some (inr r)
  | Some (Throw e) => Some (inl e)
  | _ => None
  end.

End Handlers.

Definition w0 : World := mkWorld 0 ∅ [].

(** ** A concrete JSON codec

    The handlers above are written against any [JSON.parse] and
    [JSON.stringify].  This codec is the one used to run them on concrete
    requests.  It reads the JSON grammar with integer numbers and, in
    strings, the two-character escapes and [\u00XX]; a text outside that
    fragment is refused. *)
Module Json.

Definition is_ws (c : ascii) : bool :=
  Ascii.eqb c " " || Ascii.eqb c "009" || Ascii.eqb c "010" || Ascii.eqb c "013".

Fixpoint skip_ws (s : string) : string :=
  match s with
  | String c rest => if is_ws c then skip_ws rest else s
  | EmptyString => s
  end.

(** A character that stands for itself between quotes. *)
Definition plain_char (c : ascii) : bool :=
  negb (Ascii.eqb c "034") && negb (Ascii.eqb c "\") && (32 <=? nat_of_ascii c)%nat.

Definition hex_digit (c : ascii) : option nat :=
  let n := nat_of_ascii c in
  if (48 <=? n)%nat && (n <=? 57)%nat then Some (n - 48)%nat
  else if (97 <=? n)%nat && (n <=? 102)%nat then Some (n - 87)%nat
  else if (65 <=? n)%nat && (n <=? 70)%nat then Some (n - 55)%nat
  else None.

Definition escape_char (c : ascii) : option ascii :=
  if Ascii.eqb c "034" then Some "034"%char
  else if Ascii.eqb c "\" then Some "\"%char
  else if Ascii.eqb c "/" then Some "/"%char
  else if Ascii.eqb c "b" then Some "008"%char
  else if Ascii.eqb c "f" then Some "012"%char
  else if Ascii.eqb c "n" then Some "010"%char
  else if Ascii.eqb c "r" then Some "013"%char
  else if Ascii.eqb c "t" then Some "009"%char
  else None.

Definition cons_char (c : ascii) (r : option (string * string)) : option (string * string) :=
  match r with
  | Some (t, rest) => Some (String c t, rest)
  | None => None
  end.

(** The characters after an opening quote, up to the closing one. *)
Fixpoint str_body (s : string) : option (string * string) :=
  match s with
  | EmptyString => None
  | String c rest =>
      if Ascii.eqb c "034" then Some (EmptyString, rest)
      else if Ascii.eqb c "\" then
        match rest with
        | String "u" (String "0" (String "0" (String h (String l rest')))) =>
            match hex_digit h, hex_digit l with
            | Some a, Some b => cons_char (ascii_of_nat (16 * a + b)) (str_body rest')
            | _, _ => None
            end
        | String e rest' =>
            match escape_char e with
            | Some d => cons_char d (str_body rest')
            | None => None
            end
        | EmptyString => None
        end
      else if (nat_of_ascii c <? 32)%nat then None
      else cons_char c (str_body rest)
  end.

Definition is_digit (c : ascii) : bool :=
  (48 <=? nat_of_ascii c)%nat && (nat_of_ascii c <=? 57)%nat.

Fixpoint digits (acc : Z) (s : string) : Z * string :=
  match s with
  | String c rest =>
      if is_digit c then digits (10 * acc + Z.of_nat (nat_of_ascii c - 48)) rest
      else (acc, s)
  | EmptyString => (acc, s)
  end.

(** An integer: [0], or digits that do not start with [0]; a fraction or
    an exponent is outside the fragment. *)
Definition unsigned (s : string) : option (Z * string) :=
  match s with
  | String c rest =>
      if negb (is_digit c) then None
      else
        let '(n, rest') := if Ascii.eqb c "0" then (0, rest) else digits 0 s in
        match rest' with
        | String d _ =>
            if is_digit d || Ascii.eqb d "." || Ascii.eqb d "e" || Ascii.eqb d "E"
            then None else Some (n, rest')
        | EmptyString => Some (n, rest')
        end
  | EmptyString => None
  end.

Definition keyword (k : string) (v : JsVal) (s : string) : option (JsVal * string) :=
  match strip_prefix k s with
  | Some rest => Some (v, rest)
  | None => None
  end.

(** A value, the items of an array after its first bracket, and the
    members of an object after its first brace, a later member replacing
    an earlier one of the same name; [fuel] bounds the calls. *)
Fixpoint value (fuel : nat) (s : string) : option (JsVal * string) :=
  match fuel with
  | O => None
  | S fuel' =>
      match skip_ws s with
      | String "n" _ => keyword "null" JNull (skip_ws s)
      | String "t" _ => keyword "true" (JBool true) (skip_ws s)
      | String "f" _ => keyword "false" (JBool false) (skip_ws s)
      | String "034" rest =>
          match str_body rest with
          | Some (t, rest') => Some (JStr t, rest')
          | None => None
          end
      | String "-" rest =>
          match unsigned rest with
          | Some (n, rest') => Some (JNum (- n), rest')
          | None => None
          end
      | String "[" rest =>
          match skip_ws rest with
          | String "]" rest' => Some (JArr [], rest')
          | _ =>
              match items fuel' rest with
              | Some (l, rest') => Some (JArr l, rest')
              | None => None
              end
          end
      | String "{" rest =>
          match skip_ws rest with
          | String "}" rest' => Some (JObj [], rest')
          | _ =>
              match members fuel' [] rest with
              | Some (l, rest') => Some (JObj l, rest')
              | None => None
              end
          end
      | other =>
          match unsigned other with
          | Some (n, rest') => Some (JNum n, rest')
          | None => None
          end
      end
  end
with items (fuel : nat) (s : string) : option (list JsVal * string) :=
  match fuel with
  | O => None
  | S fuel' =>
      match value fuel' s with
      | None => None
      | Some (v, rest) =>
          match skip_ws rest with
          | String "," rest' =>
              match items fuel' rest' with
              | Some (l, rest'') => Some (v :: l, rest'')
              | None => None
              end
          | String "]" rest' => Some ([v], rest')
          | _ => None
          end
      end
  end
with members (fuel : nat) (acc : list (string * JsVal)) (s : string)
  : option (list (string * JsVal) * string) :=
  match fuel with
  | O => None
  | S fuel' =>
      match skip_ws s with
      | String "034" rest =>
          match str_body rest with
          | None => None
          | Some (k, rest1) =>
              match skip_ws rest1 with
              | String ":" rest2 =>
                  match value fuel' rest2 with
                  | None => None
                  | Some (v, rest3) =>
                      match skip_ws rest3 with
                      | String "," rest4 => members fuel' (obj_set k v acc) rest4
                      | String "}" rest4 => Some (obj_set k v acc, rest4)
                      | _ => None
                      end
                  end
              | _ => None
              end
          end
      | _ => None
      end
  end.

(** [JSON.parse]: one value and nothing but white space after it. *)
Definition parse (s : string) : option JsVal :=
  match value (S (String.length s)) s with
  | Some (v, rest) =>
      match skip_ws rest with
      | EmptyString => Some v
      | _ => None
      end
  | None => None
  end.

Definition hex_char (n : nat) : ascii :=
  if (n <? 10)%nat then ascii_of_nat (48 + n) else ascii_of_nat (87 + n).

Definition quote_char (c : ascii) : string :=
  if plain_char c then String c EmptyString
  else if Ascii.eqb c "034" then String "\" (String "034" EmptyString)
  else if Ascii.eqb c "\" then "\\"
  else String "\" (String "u" (String "0" (String "0"
         (String (hex_char (nat_of_ascii c / 16))
            (String (hex_char (nat_of_ascii c mod 16)) EmptyString))))).

Fixpoint quote_body (s : string) : string :=
  match s with
  | EmptyString => String "034" EmptyString
  | String c rest => quote_char c +:+ quote_body rest
  end.

Definition quote (s : string) : string := String "034" (quote_body s).

Fixpoint join (parts : list string) : string :=
  match parts with
  | [] => ""
  | [p] => p
  | p :: rest => p +:+ "," +:+ join rest
  end.

(** [JSON.stringify]: inside an array [undefined] prints as [null],
    inside an object a property holding it is left out. *)
Fixpoint stringify (v : JsVal) : string :=
  match v with
  | JUndefined | JNull => "null"
  | JBool true => "true"
  | JBool false => "false"
  | JNum n => if n <? 0 then "-" +:+ show_Z (- n) else show_Z n
  | JStr s => quote s
  | JArr l => "[" +:+ join (map stringify l) +:+ "]"
  | JObj fields =>
      "{" +:+ join ((fix members (fs : list (string * JsVal)) : list string :=
                       match fs with
                       | [] => []
                       | (_, JUndefined) :: rest => members rest
                       | (k, x) :: rest => (quote k +:+ ":" +:+ stringify x) :: members rest
                       end) fields) +:+ "}"
  end.

End Json.

(** ** The specification's vocabulary *)

(** The outcomes of an admission, read off the middleware's answer;
    [Granted] is the outcome of a request that is let in with a new
    token, which the specification calls Admitted. *)
Inductive Outcome : Type :=
| RoomNotFound
| Reuse
| RoomFull
| Granted.

Definition outcome_of (r : PageResponse) : option Outcome :=
  match r with
  | Next None => Some Reuse
  | Next (Some _) => Some Granted
  | Redirect url =>
      if String.eqb url "/?error=room-not-found" then Some RoomNotFound
      else if String.eqb url "/?error=room-full" then Some RoomFull
      else None
  end.

(** The session token the browser holds after the answer. *)
Definition token_after (presented : option string) (r : PageResponse) : option string :=
  match r with
  | Next (Some t) => Some t
  | _ => presented
  end.

(** The stored [connected] field of a room, as a read hands it over;
    [None] when the room's metadata key is gone or is not a hash. *)
Definition stored_connected (w : World) (roomId : string) : option JsVal :=
  match find w (meta_key roomId) with
  | Some e =>
      match e_val e with
      | VHash h => Some (default JUndefined (h !! "connected"))
      | _ => None
      end
  | None => None
  end.

(** The remaining seconds of a key that is there and expires. *)
Definition remaining (w : World) (k : string) : option Z :=
  match find w k with
  | Some e =>
      match e_exp e with
      | Some deadline => Some (deadline - now w)
      | None => None
      end
  | None => None
  end.

(** The message log of a room. *)
Definition log_of (w : World) (roomId : string) : list JsVal :=
  match find w (messages_key roomId) with
  | Some e =>
      match e_val e with
      | VList l => l
      | _ => []
      end
  | None => []
  end.

(** The log key of a room holds a list, if it is there at all. *)
Definition log_ok (w : World) (roomId : string) : Prop :=
  match find w (messages_key roomId) with
  | Some e =>
      match e_val e with
      | VList _ => True
      | _ => False
      end
  | None => True
  end.

(** What [EXPIRE] with a positive timeout makes of the world. *)
Definition expire_to (w : World) (k : string) (secs : Z) : World :=
  match find w k with
  | Some e => put w k (mkEntry (e_val e) (Some (now w + secs)))
  | None => w
  end.

(** A deletion. *)
Definition is_del (c : Cmd) : Prop :=
  match c with
  | DEL _ => True
  | _ => False
  end.

(** ** Concrete requests and worlds *)

Definition sys0 : Sys := mkSys w0 [] [].

(** The outcome of the admission with number [tid]. *)
Definition outcome_at (s : Sys) (tid : nat) : option Outcome :=
  match reply_of s tid with
  | Some (inr (Page r)) => outcome_of r
  | _ => None
  end.

(** The membership of a room as the admission path reads it. *)
Definition members_of (w : World) (roomId : string) : option (list JsVal) :=
  proxy_connected Json.parse <$> stored_connected w roomId.

(** A room is created at time 0 by request 0. *)
Definition create_room1 : list Act :=
  [Arrive (RoomCreate "room1" 0); Serve 0 0; Serve 0 0].

Definition visitor (n : nat) : Request :=
  Visit "/room/room1" None ("visitor-" +:+ index_name n).

(** Ten browsers open the room's page: requests 1 to 10. *)
Definition ten_arrive : list Act := map (fun n => Arrive (visitor n)) (seq 1 10).

(** One command of each of the requests 1 to 10, in turn. *)
Definition ten_serve : list Act := map (fun n => Serve n 0) (seq 1 10).

(** The ten admissions overlap: the store serves the read of every
    request before the write of any. *)
Definition ten_racing : list Act := create_room1 ++ ten_arrive ++ ten_serve ++ ten_serve.

(** The ten admissions one after the other. *)
Definition ten_in_turn : list Act :=
  create_room1 ++ ten_arrive ++ flat_map (fun n => [Serve n 0; Serve n 0]) (seq 1 10).

(** A room is created at time 0 and a browser starts to open its page
    at 599; the store serves the read then, and the write one second
    later; then a long time passes. *)
Definition late_write : list Act :=
  create_room1
  ++ [Elapse 599; Arrive (visitor 1); Serve 1 0; Elapse 1; Serve 1 0; Elapse 100000].

(** The room of [create_room1], half of its lifetime later, with one
    member. *)
Definition w_half : World :=
  world (sys_run Json.parse Json.stringify sys0
           (create_room1 ++ [Arrive (visitor 1); Serve 1 0; Serve 1 0; Elapse 300])).

Definition alice : Session := mkSession "room1" "visitor-1" [JStr "visitor-1"].

(** A log with a message of each of two members and an entry that is not
    JSON between them. *)
Definition raw_log : list JsVal :=
  [JStr (Json.stringify (mk_message "m1" "alice" "hi" 1000 "room1" "visitor-1"));
   JStr "not json";
   JStr (Json.stringify (mk_message "m2" "bob" "hello" 2000 "room1" "visitor-2"))].

Definition w_log : World := put w_half (messages_key "room1") (mkEntry (VList raw_log) None).

(** The room of [w_half] with the two other keys a post refreshes: the
    history key and the stream under the bare room id, neither with an
    expiration. *)
Definition w_stream : World :=
  put (put w_half (history_key "room1") (mkEntry VOther None))
      "room1" (mkEntry VOther None).

(** [n] commands of request [tid], the first pending one each time. *)
Definition serve_n (tid n : nat) : list Act := repeat (Serve tid 0) n.

Definition api (token : string) (b : JsVal) : ApiRequest :=
  mkApiRequest (Some "room1") (Some token) b.

(** The scenario of the specification: a room, three visits one after the
    other, a post by the first member, a listing by each member. *)
Definition scenario : list Act :=
  create_room1
  ++ [Arrive (visitor 1)] ++ serve_n 1 2
  ++ [Arrive (visitor 2)] ++ serve_n 2 2
  ++ [Arrive (visitor 3)] ++ serve_n 3 2
  ++ [Arrive (MessagesPost
                (api "visitor-1" (JObj [("sender", JStr "alice"); ("text", JStr "hi")]))
                "m1" 1000)] ++ serve_n 4 8
  ++ [Arrive (MessagesGet (api "visitor-2" JUndefined))] ++ serve_n 5 2
  ++ [Arrive (MessagesGet (api "visitor-1" JUndefined))] ++ serve_n 6 2.

(** A member destroys the room between the read and the write of
    another visit. *)
Definition write_after_destroy : list Act :=
  create_room1
  ++ [Arrive (visitor 1)] ++ serve_n 1 2
  ++ [Arrive (visitor 2); Serve 2 0]
  ++ [Arrive (RoomDestroy (api "visitor-1" JUndefined))] ++ serve_n 3 5
  ++ [Serve 2 0; Elapse 100000].

(** A JSON text with every kind of value, a quote and a backslash. *)
Definition sample : JsVal :=
  JObj [("a", JArr [JNum 1; JNum (-2); JObj []; JStr (String "034" "x\y")]);
        ("b", JNull); ("c", JBool true)].

(** The room of [create_room1] with its two members. *)
Definition w_full : World :=
  world (sys_run Json.parse Json.stringify sys0
           (create_room1 ++ [Arrive (visitor 1)] ++ serve_n 1 2
            ++ [Arrive (visitor 2)] ++ serve_n 2 2)).

Definition bob : Session := mkSession "room1" "visitor-2" [JStr "visitor-1"; JStr "visitor-2"].

(** The metadata of [w_half] and of [w_full]. *)
Definition h_half : gmap string JsVal :=
  {["connected" := JStr (Json.stringify (JArr [JStr "visitor-1"]));
    "createdAt" := JStr "0"]}.

Definition h_full : gmap string JsVal :=
  {["connected" := JStr (Json.stringify (JArr [JStr "visitor-1"; JStr "visitor-2"]));
    "createdAt" := JStr "0"]}.

(** ** Where tokens come from *)

(** The tokens [nanoid()] returned to the page requests of a schedule. *)
Definition visit_tokens (acts : list Act) : list string :=
  flat_map (fun a => match a with
                     | Arrive (Visit _ _ token) => [token]
                     | _ => []
                     end) acts.

Section Provenance.

Variable JSON_stringify : JsVal -> string.

(** The tokens that may be members. *)
Variable minted : string -> Prop.

(** A stored [connected] value that encodes at most two minted tokens, or
    no value at all. *)
Definition minted_value (v : JsVal) : Prop :=
  v = JUndefined
  \/ exists toks : list string,
       (length toks <= 2)%nat /\ Forall minted toks
       /\ v = JStr (JSON_stringify (JArr (map JStr toks))).

Definition minted_hash (h : gmap string JsVal) : Prop :=
  minted_value (default JUndefined (h !! "connected")).

Definition minted_store (w : World) : Prop :=
  forall k e h, keys w !! k = Some e -> e_val e = VHash h -> minted_hash h.

Definition minted_cmd (c : Cmd) : Prop :=
  match c with
  | HSET _ fields => forall v, In ("connected", v) fields -> minted_value v
  | _ => True
  end.

Definition minted_res (c : Cmd) : Res c -> Prop :=
  match c return Res c -> Prop with
  | HGETALL _ => fun r => forall m, r = Some m -> minted_hash m
  | _ => fun _ => True
  end.

(** A handler that writes minted memberships only, as long as it is
    answered by a store that holds minted memberships only. *)
Fixpoint mints {R} (p : Prog R) : Prop :=
  match p with
  | Ret _ | Throw _ => True
  | Call c k => minted_cmd c /\ forall x, minted_res c x -> mints (k x)
  | All cs k => Forall minted_cmd cs /\ mints k
  end.

Definition minted_sys (s : Sys) : Prop :=
  minted_store (world s) /\ Forall mints (pool s).

(** A page request brings a minted token; the other requests bring
    none. *)
Definition minted_act (a : Act) : Prop :=
  match a with
  | Arrive (Visit _ _ token) => minted token
  | _ => True
  end.

End Provenance.

(** ** The capacity invariant *)

Section Capacity.

Variable JSON_stringify : JsVal -> string.

(** A stored [connected] value that encodes at most two tokens, or no
    value at all. *)
Definition capped_value (v : JsVal) : Prop :=
  v = JUndefined
  \/ exists toks : list string,
       (length toks <= 2)%nat /\ v = JStr (JSON_stringify (JArr (map JStr toks))).

Definition capped_hash (h : gmap string JsVal) : Prop :=
  capped_value (default JUndefined (h !! "connected")).

(** Every hash in the key space, expired or not, is capped. *)
Definition capped_store (w : World) : Prop :=
  forall k e h, keys w !! k = Some e -> e_val e = VHash h -> capped_hash h.

(** A command that keeps the store capped, and a reply that a capped
    store can give. *)
Definition capped_cmd (c : Cmd) : Prop :=
  match c with
  | HSET _ fields => forall v, In ("connected", v) fields -> capped_value v
  | _ => True
  end.

Definition capped_res (c : Cmd) : Res c -> Prop :=
  match c return Res c -> Prop with
  | HGETALL _ => fun r => forall m, r = Some m -> capped_hash m
  | _ => fun _ => True
  end.

(** A handler all of whose commands, after replies of a capped store,
    keep the store capped. *)
Fixpoint safe {R} (p : Prog R) : Prop :=
  match p with
  | Ret _ | Throw _ => True
  | Call c k => capped_cmd c /\ forall x, capped_res c x -> safe (k x)
  | All cs k => Forall capped_cmd cs /\ safe k
  end.

Definition capped_sys (s : Sys) : Prop :=
  capped_store (world s) /\ Forall safe (pool s).

End Capacity.

(** ** Visits in turn *)

Section Turns.

Variable JSON_parse : string -> option JsVal.
Variable JSON_stringify : JsVal -> string.

(** Page requests without a cookie, each served from start to end before
    the next arrives; [tokens] are the values [nanoid()] has in store for
    them.  The world left and the answers in order. *)
Fixpoint visit_all (pathname : string) (tokens : list string) (w : World)
  : World * list (Exn + PageResponse) :=
  match tokens with
  | [] => (w, [])
  | token :: rest =>
      let '(w1, r) := run (proxy JSON_parse JSON_stringify pathname None token) w in
      let '(w2, rs) := visit_all pathname rest w1 in
      (w2, r :: rs)
  end.

End Turns.

(** The room is there and its stored membership encodes [toks]. *)
Definition has_members (JSON_stringify : JsVal -> string) (w : World)
    (roomId : string) (toks : list string) : Prop :=
  exists e h,
    find w (meta_key roomId) = Some e
    /\ e_val e = VHash h
    /\ h !! "connected" = Some (JStr (JSON_stringify (JArr (map JStr toks)))).

(** ** The room page: the remaining time on display *)

(** [s.padStart(n, "0")]. *)
Definition padStart (n : nat) (s : string) : string :=
  String.concat "" (repeat "0" (n - String.length s)) +:+ s.

(** The character of a decimal digit. *)
Definition digit (n : Z) : ascii := ascii_of_nat (48 + Z.to_nat n).

(** [formatTimeRemaining] on a whole number of seconds: [Math.floor] of
    the quotient, the remainder with the sign of [seconds]. *)
Definition formatTimeRemaining (seconds : Z) : string :=
  let mins := seconds / 60 in
  let secs := Z.rem seconds 60 in
  show_Z mins +:+ ":" +:+ padStart 2 (show_Z secs).

(** [ttl > 0 ? ttl : 0], as the page and the lifetime handler both have
    it. *)
Definition clamp (ttl : Z) : Z := if 0 <? ttl then ttl else 0.

(** The state [timeRemaining] is a number or [null] ([None]); [ttl] is
    [ttlData?.ttl], [None] while it is undefined. *)
Definition initialTimeRemaining (ttl : option Z) : option Z :=
  match ttl with
  | Some t => Some (clamp t)
  | None => None
  end.

(** The effect that follows [ttlData?.ttl]: the state after its update. *)
Definition syncTimeRemaining (ttl : option Z) (prev : option Z) : option Z :=
  match ttl with
  | None => prev
  | Some t =>
      let newTtl := clamp t in
      match prev with
      | None => Some newTtl
      | Some p => if 5 <? Z.abs (p - newTtl) then Some newTtl else prev
      end
  end.

(** The update the interval makes each time it fires. *)
Definition countdownTick (prev : option Z) : option Z :=
  match prev with
  | None => Some 0
  | Some p => if p <=? 1 then Some 0 else Some (p - 1)
  end.

(** One second of the countdown effect: the interval is set only while
    the state is a positive number. *)
Definition countdownSecond (timeRemaining : option Z) : option Z :=
  match timeRemaining with
  | Some t => if t <=? 0 then timeRemaining else countdownTick timeRemaining
  | None => None
  end.

(** The effect sends the browser to the destroyed page when the state is
    0. *)
Definition leavesRoom (timeRemaining : option Z) : bool :=
  match timeRemaining with
  | Some t => t =? 0
  | None => false
  end.

(** * Properties *)

(** ** Store and command lemmas *)

Lemma find_alive w k e : find w k = Some e -> alive (now w) e = true.
Proof.
  unfold find. destruct (keys w !! k) as [e'|]; [|discriminate].
  destruct (alive (now w) e') eqn:Ha; [|discriminate]. congruence.
Qed.

Lemma find_put_eq w k e : alive (now w) e = true -> find (put w k e) k = Some e.
Proof. intros Ha. unfold find, put. simpl. rewrite lookup_insert_eq. by rewrite Ha. Qed.

Lemma find_put_ne w k k' e : k ≠ k' -> find (put w k e) k' = find w k'.
Proof. intros Hne. unfold find, put. simpl. by rewrite lookup_insert_ne. Qed.

Lemma find_drop_eq w k : find (drop w k) k = None.
Proof. unfold find, drop. simpl. by rewrite lookup_delete_eq. Qed.

Lemma find_drop_ne w k k' : k ≠ k' -> find (drop w k) k' = find w k'.
Proof. intros Hne. unfold find, drop. simpl. by rewrite lookup_delete_ne. Qed.

Lemma find_publish w ev k : find (publish w ev) k = find w k.
Proof. reflexivity. Qed.

Lemma exec_EXPIRE_pos w k secs :
  0 < secs -> exists n, exec (EXPIRE k secs) w = Some (expire_to w k secs, n).
Proof.
  intros Hpos. unfold expire_to. simpl. destruct (find w k) as [e|]; [|by exists 0].
  destruct (secs <=? 0) eqn:E; [apply Z.leb_le in E; lia|]. by exists 1.
Qed.

Lemma now_expire_to w k secs : now (expire_to w k secs) = now w.
Proof. unfold expire_to. by destruct (find w k). Qed.

Lemma events_expire_to w k secs : events (expire_to w k secs) = events w.
Proof. unfold expire_to. by destruct (find w k). Qed.

Lemma find_expire_to_ne w k k' secs : k <> k' -> find (expire_to w k secs) k' = find w k'.
Proof.
  intros Hne. unfold expire_to. destruct (find w k); [|done]. by apply find_put_ne.
Qed.

Lemma remaining_expire_to_eq w k secs :
  0 < secs -> is_Some (find w k) -> remaining (expire_to w k secs) k = Some secs.
Proof.
  intros Hpos [e He]. unfold remaining, expire_to. rewrite He.
  rewrite find_put_eq.
  - simpl. f_equal. lia.
  - unfold alive. simpl. apply Z.ltb_lt. lia.
Qed.

Lemma remaining_expire_to_ne w k k' secs :
  k <> k' -> remaining (expire_to w k secs) k' = remaining w k'.
Proof.
  intros Hne. unfold remaining. rewrite find_expire_to_ne by done.
  by rewrite now_expire_to.
Qed.

Lemma remaining_pos w k r : remaining w k = Some r -> 0 < r.
Proof.
  unfold remaining. destruct (find w k) as [e|] eqn:Hf; [|discriminate].
  apply find_alive in Hf. unfold alive in Hf.
  destruct (e_exp e) as [d|]; [|discriminate].
  apply Z.ltb_lt in Hf. intros [= <-]. lia.
Qed.

Lemma remaining_is_Some w k r : remaining w k = Some r -> is_Some (find w k).
Proof. unfold remaining. destruct (find w k); [eauto|discriminate]. Qed.

(** The four keys of a room are four different keys. *)
Lemma prefixed_ne (c : ascii) (p s : string) : String c (p +:+ s) <> s.
Proof.
  intros H. apply (f_equal String.length) in H. simpl in H.
  assert (Hlen : forall a b, String.length (a +:+ b) = (String.length a + String.length b)%nat).
  { induction a; simpl; intros; [done|]. by rewrite IHa. }
  rewrite Hlen in H. lia.
Qed.

Lemma meta_ne_bare r : meta_key r <> r.
Proof. apply (prefixed_ne "m" "eta:"). Qed.
Lemma messages_ne_bare r : messages_key r <> r.
Proof. apply (prefixed_ne "m" "essages:"). Qed.
Lemma history_ne_bare r : history_key r <> r.
Proof. apply (prefixed_ne "h" "istory:"). Qed.
Lemma meta_ne_messages r r' : meta_key r <> messages_key r'.
Proof. discriminate. Qed.
Lemma meta_ne_history r r' : meta_key r <> history_key r'.
Proof. discriminate. Qed.
Lemma messages_ne_history r r' : messages_key r <> history_key r'.
Proof. discriminate. Qed.

Create HintDb keys.
#[local] Hint Resolve meta_ne_bare messages_ne_bare history_ne_bare
  meta_ne_messages meta_ne_history messages_ne_history : keys.

Ltac keys_ne := solve [auto with keys | apply not_eq_sym; auto with keys].

Lemma present_Some o s : present o = Some s -> o = Some s /\ s <> "".
Proof.
  destruct o as [t|]; simpl; [|discriminate].
  destruct (String.eqb_spec t ""); [discriminate|]. intros [= ->]. done.
Qed.

Lemma present_intro s : s <> "" -> present (Some s) = Some s.
Proof. intros Hs. simpl. by destruct (String.eqb_spec s ""). Qed.

Lemma is_str_true s v : is_str s v = true <-> v = JStr s.
Proof.
  destruct v; simpl; try (split; [discriminate | intros [=]]).
  destruct (String.eqb_spec s0 s); split; congruence.
Qed.

Lemma includes_In l s : includes l s = true <-> In (JStr s) l.
Proof.
  unfold includes. rewrite existsb_exists. split.
  - intros (v & Hin & Hv). apply is_str_true in Hv. by subst.
  - intros Hin. exists (JStr s). split; [done|]. by apply is_str_true.
Qed.

Lemma run_Call {R} c (k : Res c -> Prog R) w :
  run (Call c k) w
  = match exec c w with
    | Some (w', x) => run (k x) w'
    | None => (w, inl StoreError)
    end.
Proof. reflexivity. Qed.

Lemma step_Call {R} choice c (k : Res c -> Prog R) w :
  step choice (Call c k) w
  = match exec c w with
    | Some (w', x) => Some (w', k x, c)
    | None => Some (w, Throw StoreError, c)
    end.
Proof. reflexivity. Qed.

Lemma run_bind {A B} (p : Prog A) (f : A -> Prog B) w :
  run (bind p f) w
  = match run p w with
    | (w', inr a) => run (f a) w'
    | (w', inl e) => (w', inl e)
    end.
Proof.
  revert w. induction p as [a|e|c k IH|cs k IH]; intros w; simpl; try reflexivity.
  - destruct (exec c w) as [[w' x]|]; [apply IH|reflexivity].
  - destruct (exec_all cs w) as [w'|]; [apply IH|reflexivity].
Qed.

Lemma exec_del c w : is_del c -> exists k n, c = DEL k /\ exec c w = Some (drop w k, n).
Proof.
  destruct c; try done. intros _. exists k. simpl.
  destruct (find w k); eauto.
Qed.

Lemma drop_comm w k1 k2 : drop (drop w k1) k2 = drop (drop w k2) k1.
Proof. unfold drop. simpl. f_equal. apply delete_delete. Qed.

Lemma exec_all_dels_perm l l' :
  l ≡ₚ l' -> Forall is_del l -> forall w, exec_all l w = exec_all l' w.
Proof.
  induction 1 as [|c l l' Hp IH|c1 c2 l|l1 l2 l3 Hp1 IH1 Hp2 IH2]; intros Hd w.
  - reflexivity.
  - inversion Hd as [|? ? Hc Hl]; subst. simpl.
    destruct (exec_del c w Hc) as (k & n & -> & ->). by apply IH.
  - inversion Hd as [|? ? Hc1 Hl]; subst. inversion Hl as [|? ? Hc2 Hl']; subst.
    destruct (exec_del _ w Hc1) as (k1 & n1 & -> & E1).
    destruct (exec_del _ w Hc2) as (k2 & n2 & -> & E2).
    cbn [exec_all]. rewrite E1, E2.
    destruct (exec_del (DEL k2) (drop w k1) I) as (k2' & m2 & [= <-] & ->).
    destruct (exec_del (DEL k1) (drop w k2) I) as (k1' & m1 & [= <-] & ->).
    by rewrite drop_comm.
  - rewrite IH1 by done. apply IH2. by rewrite <- Hp1.
Qed.

Section Properties.

Variable JSON_parse : string -> option JsVal.
Variable JSON_stringify : JsVal -> string.


(** ** Membership reads *)

(** C3 (as amended).  Neither reader of the [connected] field can fail,
    and the session authenticator reads an array as itself, a non-empty
    string that parses to an array as that array, and everything else as
    the empty sequence.  The admission path reads a non-empty string
    that is not JSON as the one-element sequence holding that string,
    where the authenticator reads the empty sequence; from every other
    stored value it reads the sequence the authenticator reads. *)
Theorem connected_readers (raw : JsVal) :
  auth_connected JSON_parse raw =
    match raw with
    | JArr items => items
    | JStr s =>
        if String.eqb s "" then []
        else match JSON_parse s with
             | Some (JArr items) => items
             | _ => []
             end
    | _ => []
    end
  /\ (forall s, raw = JStr s -> s <> "" -> JSON_parse s = None ->
        proxy_connected JSON_parse raw = [JStr s] /\ auth_connected JSON_parse raw = [])
  /\ ((forall s, raw = JStr s -> s = "" \/ is_Some (JSON_parse s)) ->
        proxy_connected JSON_parse raw = auth_connected JSON_parse raw).
Proof.
  unfold proxy_connected, auth_connected.
  destruct raw as [| |b|n|s|items|fields]; simpl;
    try (split; [reflexivity|split; [discriminate|reflexivity]]).
  - destruct b; repeat split; discriminate.
  - destruct (n =? 0); repeat split; discriminate.
  - destruct (String.eqb_spec s "") as [->|Hs]; simpl.
    + split; [done|]. split; [|done]. by intros s' [= <-].
    + destruct (JSON_parse s) as [v|] eqn:Hp.
      * split; [by destruct v|]. split.
        -- intros s' [= <-] _ Hn. congruence.
        -- intros _. by destruct v.
      * split; [done|]. split.
        -- by intros s' [= <-] _ _.
        -- intros H. destruct (H s eq_refl) as [->|[v Hv]]; [done|congruence].
Qed.

(** ** Admission *)

(** C2.  A request that presents a token already in the room's
    [connected] list is let through as it is: the answer sets no cookie,
    so the browser keeps the token it presented; no command after the
    read is issued, so the list stays as it was. *)
Theorem readmission_idempotent (w : World) (pathname roomId token fresh : string)
    (m : gmap string JsVal) :
  room_match pathname = Some roomId ->
  exec (HGETALL (meta_key roomId)) w = Some (w, Some m) ->
  token <> "" ->
  In (JStr token) (proxy_connected JSON_parse (default JUndefined (m !! "connected"))) ->
  run (proxy JSON_parse JSON_stringify pathname (Some token) fresh) w = (w, inr (Next None))
  /\ step 0 (proxy JSON_parse JSON_stringify pathname (Some token) fresh) w
     = Some (w, Ret (Next None), HGETALL (meta_key roomId))
  /\ outcome_of (Next None) = Some Reuse
  /\ token_after (Some token) (Next None) = Some token.
Proof.
  intros Hm Hget Htok Hin.
  assert (Hrec : recognized (Some token)
                   (proxy_connected JSON_parse (default JUndefined (m !! "connected"))) = true).
  { unfold recognized. rewrite present_intro by done. by apply includes_In. }
  unfold proxy. rewrite Hm, run_Call, step_Call, Hget, Hrec. done.
Qed.

(** ** Authentication *)


(** ** Remaining lifetime *)

(** C9.  The lifetime handler answers a number that is never negative:
    the remaining seconds of a metadata key that is there and expires,
    and 0 both when the key is gone (the store says -2), expired but not
    yet purged included, and when it does not expire (the store says
    -1). *)
Theorem ttl_never_negative (auth : Session) (w : World) :
  exists n,
    run (room_ttl auth) w = (w, inr n)
    /\ 0 <= n
    /\ match find w (meta_key (s_roomId auth)) with
       | None => exec (TTL (meta_key (s_roomId auth))) w = Some (w, -2) /\ n = 0
       | Some e =>
           match e_exp e with
           | None => exec (TTL (meta_key (s_roomId auth))) w = Some (w, -1) /\ n = 0
           | Some deadline => n = deadline - now w
           end
       end.
Proof.
  unfold room_ttl. rewrite run_Call. simpl exec.
  destruct (find w (meta_key (s_roomId auth))) as [e|] eqn:Hf.
  - pose proof (find_alive _ _ _ Hf) as Ha. unfold alive in Ha.
    destruct (e_exp e) as [d|].
    + apply Z.ltb_lt in Ha. exists (d - now w). simpl.
      destruct (0 <? d - now w) eqn:Hpos; [|apply Z.ltb_ge in Hpos; lia].
      repeat split; lia.
    + exists 0. simpl. done.
  - exists 0. simpl. done.
Qed.

(** ** Reading the log *)

Lemma masked_messages_app token l1 l2 :
  masked_messages JSON_parse token (l1 ++ l2)
  = (masked_messages JSON_parse token l1 ++ masked_messages JSON_parse token l2)%list.
Proof.
  unfold masked_messages. rewrite List.filter_app. apply omap_app.
Qed.

Lemma assoc_obj_set_eq name v fields : assoc name (obj_set name v fields) = v.
Proof.
  induction fields as [|[k x] rest IH]; simpl.
  - by rewrite String.eqb_refl.
  - destruct (String.eqb k name) eqn:E; simpl; rewrite E; done.
Qed.

Lemma assoc_obj_set_ne name name' v fields :
  name <> name' -> assoc name' (obj_set name v fields) = assoc name' fields.
Proof.
  intros Hne. induction fields as [|[k x] rest IH]; simpl.
  - destruct (String.eqb_spec name name'); done.
  - destruct (String.eqb_spec k name) as [->|Hk]; simpl.
    + destruct (String.eqb_spec name name'); done.
    + destruct (String.eqb k name'); done.
Qed.

Lemma mask_object token fields :
  exists fields',
    mask token (JObj fields) = Some (JObj fields')
    /\ (assoc "token" fields = JStr token -> assoc "token" fields' = JStr token)
    /\ (assoc "token" fields <> JStr token -> assoc "token" fields' = JUndefined)
    /\ (forall name, name <> "token" -> assoc name fields' = assoc name fields).
Proof.
  exists (obj_set "token"
            (if is_str token (assoc "token" fields) then JStr token else JUndefined) fields).
  split; [reflexivity|]. rewrite assoc_obj_set_eq. split; [|split].
  - intros ->. simpl. by rewrite String.eqb_refl.
  - intros Hne. destruct (assoc "token" fields) as [| | | |t| |]; try reflexivity.
    simpl. destruct (String.eqb_spec t token) as [->|]; [done|reflexivity].
  - intros name Hne. apply assoc_obj_set_ne. congruence.
Qed.

(** C5.  The handler answers the log entry by entry, in the order of the
    log: the answer for a log is the answers for its entries put end to
    end.  A string that [JSON.parse] refuses, or reads as [null],
    contributes nothing, like an entry that is [null] or no string and no
    object, and the request still succeeds.  A string that [JSON.parse]
    reads as an object, like an entry that is an object already,
    contributes that message with its other fields as stored and its
    [token] kept when it is the session's own token and cleared
    otherwise. *)
Theorem list_messages_redaction (auth : Session) (req : ApiRequest) (w : World)
    (raws : list JsVal) :
  let listing := masked_messages JSON_parse (s_token auth) in
  s_roomId auth <> "" ->
  exec (LRANGE (messages_key (s_roomId auth))) w = Some (w, raws) ->
  run (messages_get JSON_parse auth req) w
  = (w, inr (JObj [("messages", JArr (listing raws))]))
  /\ listing [] = []
  /\ (forall l1 l2, listing (l1 ++ l2)%list = (listing l1 ++ listing l2)%list)
  /\ (forall s, JSON_parse s = None \/ JSON_parse s = Some JNull -> listing [JStr s] = [])
  /\ (forall raw,
        raw = JNull \/ raw = JUndefined \/ (exists b, raw = JBool b) \/ (exists n, raw = JNum n) ->
        listing [raw] = [])
  /\ (forall raw fields,
        raw = JObj fields \/ (exists s, raw = JStr s /\ JSON_parse s = Some (JObj fields)) ->
        exists fields',
          listing [raw] = [JObj fields']
          /\ (assoc "token" fields = JStr (s_token auth) ->
                assoc "token" fields' = JStr (s_token auth))
          /\ (assoc "token" fields <> JStr (s_token auth) ->
                assoc "token" fields' = JUndefined)
          /\ forall name, name <> "token" -> assoc name fields' = assoc name fields).
Proof.
  intros listing Hroom Hget. split; [|split; [|split; [|split; [|split]]]].
  - unfold messages_get. destruct (String.eqb_spec (s_roomId auth) ""); [done|].
    by rewrite run_Call, Hget.
  - reflexivity.
  - apply masked_messages_app.
  - intros s [Hp|Hp]; unfold listing, masked_messages, present_entry; simpl; by rewrite Hp.
  - intros raw [->|[->|[[b ->]|[n ->]]]]; reflexivity.
  - intros raw fields Hraw.
    destruct (mask_object (s_token auth) fields) as (fields' & Hmask & Hkeep & Hclear & Hrest).
    exists fields'. split; [|done].
    unfold mask in Hmask. simpl in Hmask. injection Hmask as <-.
    unfold listing, masked_messages, present_entry.
    destruct Hraw as [->|(s & -> & Hp)]; simpl; [|rewrite Hp]; reflexivity.
Qed.

(** ** Posting *)

Lemma exec_all_expire3 w k1 k2 k3 secs :
  0 < secs ->
  exec_all [EXPIRE k1 secs; EXPIRE k2 secs; EXPIRE k3 secs] w
  = Some (expire_to (expire_to (expire_to w k1 secs) k2 secs) k3 secs).
Proof.
  intros Hpos. cbn [exec_all].
  destruct (exec_EXPIRE_pos w k1 secs Hpos) as [n1 ->].
  destruct (exec_EXPIRE_pos (expire_to w k1 secs) k2 secs Hpos) as [n2 ->].
  destruct (exec_EXPIRE_pos (expire_to (expire_to w k1 secs) k2 secs) k3 secs Hpos)
    as [n3 ->].
  reflexivity.
Qed.

(** X20.  On a room whose metadata key is there with [r] seconds left
    and whose log key is free or holds a list, a post succeeds and
    answers the message with all six fields.  It puts the encoded message
    at the end of the room's log and nothing else into it, publishes one
    [chat.message] event that carries the message as it is, token
    included, and leaves the log key with exactly the [r] seconds of the
    metadata key, as it leaves the history key and the bare room key when
    they are there; the metadata key keeps its [r] seconds. *)
Theorem post_appends_and_aligns (auth : Session) (sender text id : string)
    (timestamp : Z) (w : World) (r : Z) :
  let roomId := s_roomId auth in
  let message := JObj [("id", JStr id); ("sender", JStr sender); ("text", JStr text);
                       ("timestamp", JNum timestamp); ("roomId", JStr roomId);
                       ("token", JStr (s_token auth))] in
  remaining w (meta_key roomId) = Some r ->
  log_ok w roomId ->
  exists w',
    run (messages_post JSON_stringify auth sender text id timestamp) w
    = (w', inr (JObj [("message", message)]))
    /\ log_of w' roomId = (log_of w roomId ++ [JStr (JSON_stringify message)])%list
    /\ events w' = (events w ++ [mkEvent roomId "chat.message" message])%list
    /\ remaining w' (messages_key roomId) = Some r
    /\ remaining w' (meta_key roomId) = Some r
    /\ (is_Some (find w (history_key roomId)) ->
          remaining w' (history_key roomId) = Some r)
    /\ (is_Some (find w roomId) -> remaining w' roomId = Some r)
    /\ now w' = now w.
Proof.
  intros roomId message0 Hrem Hlog.
  set (message := mk_message id sender text timestamp roomId (s_token auth)).
  change message0 with message. clear message0.
  pose proof (remaining_pos _ _ _ Hrem) as Hpos.
  destruct (remaining_is_Some _ _ _ Hrem) as [em Hem].
  set (entry := match find w (messages_key roomId) with
                | Some e => mkEntry (VList (log_of w roomId ++ [JStr (JSON_stringify message)])) (e_exp e)
                | None => mkEntry (VList [JStr (JSON_stringify message)]) None
                end).
  set (w1 := put w (messages_key roomId) entry).
  set (w2 := publish w1 (mkEvent roomId "chat.message" message)).
  assert (Hpush : exists n, exec (RPUSH (messages_key roomId) (JStr (JSON_stringify message))) w
                            = Some (w1, n)).
  { unfold w1, entry, log_of, log_ok in *. simpl.
    destruct (find w (messages_key roomId)) as [e|]; [|by eexists].
    destruct (e_val e); try done. by eexists. }
  destruct Hpush as [n Hpush].
  assert (Halive : alive (now w) entry = true).
  { unfold entry. destruct (find w (messages_key roomId)) as [e|] eqn:Hf; [|done].
    apply find_alive in Hf. exact Hf. }
  assert (Hmeta2 : remaining w2 (meta_key roomId) = Some r).
  { unfold remaining, w2, w1. rewrite find_publish.
    rewrite find_put_ne by keys_ne. exact Hrem. }
  exists (expire_to (expire_to (expire_to w2 (messages_key roomId) r) (history_key roomId) r) roomId r).
  assert (Hfind1 : find w2 (messages_key roomId) = Some entry).
  { unfold w2, w1. rewrite find_publish. by apply find_put_eq. }
  split; [|split; [|split; [|split; [|split; [|split; [|split]]]]]].
  - unfold messages_post. fold roomId. rewrite run_Call. simpl exec at 1.
    rewrite Hem. cbv beta iota. change (1 =? 0) with false. cbv iota. fold message.
    cbn [run]. rewrite Hpush.
    change (exec (EMIT roomId "chat.message" message) w1) with (Some (w2, tt)).
    assert (Httl : exec (TTL (meta_key roomId)) w2 = Some (w2, r)).
    { unfold remaining in Hmeta2. simpl.
      destruct (find w2 (meta_key roomId)) as [e|]; [|done].
      destruct (e_exp e); [|done]. by injection Hmeta2 as ->. }
    cbv beta iota. rewrite Httl, exec_all_expire3 by done. reflexivity.
  - unfold log_of at 1.
    rewrite find_expire_to_ne by keys_ne.
    rewrite find_expire_to_ne by keys_ne.
    unfold expire_to. rewrite Hfind1. rewrite find_put_eq.
    + simpl. unfold entry, log_of.
      destruct (find w (messages_key roomId)) as [e|]; simpl; [|done].
      unfold log_ok in Hlog. done.
    + unfold alive. simpl. apply Z.ltb_lt. lia.
  - by rewrite !events_expire_to.
  - rewrite remaining_expire_to_ne by keys_ne.
    rewrite remaining_expire_to_ne by keys_ne.
    apply remaining_expire_to_eq; [done|]. rewrite Hfind1. eauto.
  - rewrite remaining_expire_to_ne by keys_ne.
    rewrite remaining_expire_to_ne by keys_ne.
    rewrite remaining_expire_to_ne by keys_ne.
    exact Hmeta2.
  - intros Hh. rewrite remaining_expire_to_ne by keys_ne.
    apply remaining_expire_to_eq; [done|].
    rewrite find_expire_to_ne by keys_ne.
    unfold w2, w1. rewrite find_publish.
    rewrite find_put_ne by keys_ne. exact Hh.
  - intros Hb. apply remaining_expire_to_eq; [done|].
    rewrite find_expire_to_ne by keys_ne.
    rewrite find_expire_to_ne by keys_ne.
    unfold w2, w1. rewrite find_publish.
    rewrite find_put_ne by keys_ne. exact Hb.
  - by rewrite !now_expire_to.
Qed.

Lemma run_authenticate_world req w : (run (authMiddleware JSON_parse req) w).1 = w.
Proof.
  unfold authMiddleware.
  destruct (present (q_roomId req)) as [roomId|]; [|done].
  destruct (present (cookie req)) as [token|]; [|done].
  cbn [run]. simpl exec.
  destruct (find w (meta_key roomId)) as [e|]; simpl.
  - destruct (e_val e); simpl; try done. by destruct (includes _ _).
  - done.
Qed.

Lemma exec_all_expire3_total w k1 k2 k3 secs :
  is_Some (exec_all [EXPIRE k1 secs; EXPIRE k2 secs; EXPIRE k3 secs] w).
Proof.
  assert (Hex : forall w k, exists w' n, exec (EXPIRE k secs) w = Some (w', n)).
  { intros w1 k. simpl. destruct (find w1 k); [|by eauto].
    destruct (secs <=? 0); eauto. }
  cbn [exec_all].
  destruct (Hex w k1) as (w1 & n1 & ->). destruct (Hex w1 k2) as (w2 & n2 & ->).
  destruct (Hex w2 k3) as (w3 & n3 & ->). eauto.
Qed.

(** C8.  A post whose room has no metadata key when the handler looks
    fails with the room-not-found error, and it fails with that error in
    no other case.  The schema lets a body through exactly when it has a
    [sender] string of at most 100 characters and a [text] string of at
    most 1000; any other body makes the request fail.  In both kinds of
    failure the world is left as it was: the log has no new entry and no
    event is published. *)
Theorem post_failures_leave_state (req : ApiRequest) (id : string) (timestamp : Z)
    (w : World) :
  (forall auth sender text,
      (find w (meta_key (s_roomId auth)) = None ->
         run (messages_post JSON_stringify auth sender text id timestamp) w
         = (w, inl (Error "Room not found")))
      /\ (forall w',
            run (messages_post JSON_stringify auth sender text id timestamp) w
            = (w', inl (Error "Room not found")) ->
            find w (meta_key (s_roomId auth)) = None))
  /\ (forall sender text,
        parse_body (body req) = Some (sender, text) <->
        exists fields,
          body req = JObj fields
          /\ assoc "sender" fields = JStr sender
          /\ assoc "text" fields = JStr text
          /\ (String.length sender <= 100)%nat
          /\ (String.length text <= 1000)%nat)
  /\ (parse_body (body req) = None ->
        exists e,
          run (serve JSON_parse JSON_stringify (MessagesPost req id timestamp)) w
          = (w, inl e)).
Proof.
  split; [|split].
  - intros auth sender text. unfold messages_post. cbn [run]. simpl exec.
    destruct (find w (meta_key (s_roomId auth))) as [e|] eqn:Hf.
    + split; [done|]. intros w'. cbv beta iota. change (1 =? 0) with false. cbv iota.
      cbn [run].
      match goal with |- context [exec (RPUSH ?k ?v) w] =>
        destruct (exec (RPUSH k v) w) as [[w1 n]|] end; [|done].
      match goal with |- context [exec (EMIT ?a ?b ?c) w1] =>
        change (exec (EMIT a b c) w1) with (Some (publish w1 (mkEvent a b c), tt)) end.
      cbv beta iota.
      match goal with |- context [exec (TTL ?k) ?w2] =>
        destruct (exec (TTL k) w2) as [[w3 t]|] end; [|done].
      match goal with |- context [exec_all ?cs ?w3] =>
        destruct (exec_all_expire3_total w3 (messages_key (s_roomId auth))
                    (history_key (s_roomId auth)) (s_roomId auth) t) as [w4 ->] end.
      done.
    + split; [done|]. done.
  - intros sender text. unfold parse_body. split.
    + destruct (body req) as [| | | | | |fields]; try done.
      destruct (assoc "sender" fields) as [| | | |s| |] eqn:Hs; try done.
      destruct (assoc "text" fields) as [| | | |t| |] eqn:Ht; try done.
      destruct (String.length s <=? 100)%nat eqn:H1; [|done].
      destruct (String.length t <=? 1000)%nat eqn:H2; [|done].
      intros [= <- <-]. exists fields.
      apply Nat.leb_le in H1, H2. done.
    + intros (fields & -> & -> & -> & H1 & H2).
      apply Nat.leb_le in H1, H2. by rewrite H1, H2.
  - intros Hbad. cbn [serve]. rewrite run_bind.
    pose proof (run_authenticate_world req w) as Hw.
    destruct (run (authMiddleware JSON_parse req) w) as [w' [e|auth]]; simpl in Hw; subst w'.
    + by exists e.
    + rewrite Hbad. by exists ValidationError.
Qed.

(** ** Destruction *)

Lemma steps_finished {R} choices (p : Prog R) w :
  finished p = true -> steps choices p w = ([], p, w).
Proof.
  intros Hf. induction choices as [|c rest IH]; [done|].
  destruct p; try done.
Qed.

Lemma steps_dels choices : forall rest w tr (p' : Prog unit) w',
  Forall is_del rest ->
  steps choices (pending rest (Ret tt)) w = (tr, p', w') ->
  exists rest',
    (tr ++ rest')%list ≡ₚ rest
    /\ p' = pending rest' (Ret tt)
    /\ exec_all rest' w' = exec_all rest w.
Proof.
  induction choices as [|c choices IH]; intros rest w tr p' w' Hd Hs.
  - injection Hs as <- <- <-. by exists rest.
  - destruct rest as [|c0 rest0].
    { rewrite steps_finished in Hs by done. injection Hs as <- <- <-. by exists []. }
    cbn [steps pending step] in Hs.
    destruct ((c0 :: rest0) !! c) as [cmd|] eqn:Hl.
    + assert (Hcmd : is_del cmd).
      { eapply List.Forall_forall; [exact Hd|]. apply (proj1 (list_elem_of_In _ _)).
        eapply list_elem_of_lookup_2. exact Hl. }
      destruct (exec_del cmd w Hcmd) as (k & n & -> & Hex).
      rewrite Hex in Hs.
      destruct (steps choices (pending (delete c (c0 :: rest0)) (Ret tt)) (drop w k))
        as [[tr1 q] w1] eqn:Hrec.
      cbv beta iota in Hs. injection Hs as <- <- <-.
      pose proof (delete_Permutation _ _ _ Hl) as Hperm.
      assert (Hd' : Forall is_del (delete c (c0 :: rest0))).
      { apply List.Forall_forall. intros x Hx. eapply List.Forall_forall; [exact Hd|].
        apply (proj1 (list_elem_of_In _ _)). rewrite Hperm.
        apply list_elem_of_In in Hx. by right. }
      destruct (IH _ _ _ _ _ Hd' Hrec) as (rest' & Hp & Hq & He).
      exists rest'. split; [|split].
      * simpl. rewrite Hperm. by constructor.
      * done.
      * rewrite He. rewrite (exec_all_dels_perm _ _ Hperm Hd). cbn [exec_all].
        by rewrite Hex.
    + apply (IH (c0 :: rest0)); done.
Qed.

Lemma proxy_absent w pathname roomId existingToken token :
  room_match pathname = Some roomId ->
  find w (meta_key roomId) = None ->
  run (proxy JSON_parse JSON_stringify pathname existingToken token) w
  = (w, inr (Redirect "/?error=room-not-found")).
Proof.
  intros Hm Hf. unfold proxy. rewrite Hm. cbn [run]. simpl exec. by rewrite Hf.
Qed.

Lemma authenticate_absent req w roomId :
  q_roomId req = Some roomId ->
  find w (meta_key roomId) = None ->
  exists msg, run (authMiddleware JSON_parse req) w = (w, inl (AuthError msg)).
Proof.
  intros Hq Hf. unfold authMiddleware.
  destruct (present (q_roomId req)) as [r|] eqn:Hr; [|by eexists].
  apply present_Some in Hr as [Hr _]. rewrite Hq in Hr. injection Hr as <-.
  destruct (present (cookie req)) as [t|]; [|by eexists].
  cbn [run]. simpl exec. rewrite Hf. by eexists.
Qed.

Lemma exec_all_dels3 w k1 k2 k3 :
  exec_all [DEL k1; DEL k2; DEL k3] w = Some (drop (drop (drop w k1) k2) k3).
Proof.
  cbn [exec_all].
  destruct (exec_del (DEL k1) w I) as (? & n1 & [= <-] & ->).
  destruct (exec_del (DEL k2) (drop w k1) I) as (? & n2 & [= <-] & ->).
  destruct (exec_del (DEL k3) (drop (drop w k1) k2) I) as (? & n3 & [= <-] & ->).
  reflexivity.
Qed.

(** X21.  Whatever the order in which the store serves the handler's
    calls, the first one served is the publication of [chat.destroy] on
    the room's channel, and only deletions of the bare room key, the
    metadata key and the log key follow, each at most once and, once the
    handler has finished, each exactly once.  In the world the handler
    leaves when no other request's command comes in between, those three
    keys are gone and every other key is as before.  In that world a
    visit of the room is answered with room-not-found, and a post or a
    listing for the room is refused by the authentication. *)
Theorem destroy_notifies_then_deletes (auth : Session) (w : World) :
  let roomId := s_roomId auth in
  let payload := JObj [("isDestroyed", JBool true)] in
  let dels := [DEL roomId; DEL (meta_key roomId); DEL (messages_key roomId)] in
  let gone := drop (drop (drop (publish w (mkEvent roomId "chat.destroy" payload))
                            roomId) (meta_key roomId)) (messages_key roomId) in
  (forall choices tr p' w',
      steps choices (room_destroy auth) w = (tr, p', w') ->
      tr = []
      \/ exists ds,
           tr = EMIT roomId "chat.destroy" payload :: ds
           /\ ds ⊆+ dels
           /\ (finished p' = true -> ds ≡ₚ dels /\ w' = gone))
  /\ run (room_destroy auth) w = (gone, inr tt)
  /\ find gone roomId = None
  /\ find gone (meta_key roomId) = None
  /\ find gone (messages_key roomId) = None
  /\ (forall k, k <> roomId -> k <> meta_key roomId -> k <> messages_key roomId ->
        find gone k = find w k)
  /\ (forall pathname existingToken token,
        room_match pathname = Some roomId ->
        run (proxy JSON_parse JSON_stringify pathname existingToken token) gone
        = (gone, inr (Redirect "/?error=room-not-found")))
  /\ (forall req id timestamp,
        q_roomId req = Some roomId ->
        exists msg,
          run (serve JSON_parse JSON_stringify (MessagesPost req id timestamp)) gone
          = (gone, inl (AuthError msg)))
  /\ (forall req,
        q_roomId req = Some roomId ->
        exists msg,
          run (serve JSON_parse JSON_stringify (MessagesGet req)) gone
          = (gone, inl (AuthError msg))).
Proof.
  intros roomId payload dels gone.
  assert (Hmeta : find gone (meta_key roomId) = None).
  { unfold gone. rewrite find_drop_ne by keys_ne. apply find_drop_eq. }
  split; [|split; [|split; [|split; [|split; [|split; [|split; [|split]]]]]]].
  - intros [|c choices] tr p' w' Hs.
    { left. by injection Hs as <- _ _. }
    right. cbn [steps room_destroy step] in Hs.
    change (exec (EMIT (s_roomId auth) "chat.destroy" (JObj [("isDestroyed", JBool true)])) w)
      with (Some (publish w (mkEvent roomId "chat.destroy" payload), tt)) in Hs.
    cbv beta iota in Hs.
    change (All [DEL (s_roomId auth); DEL (meta_key (s_roomId auth));
                 DEL (messages_key (s_roomId auth))] (Ret tt))
      with (pending dels (Ret tt)) in Hs.
    destruct (steps choices (pending dels (Ret tt))
                (publish w (mkEvent roomId "chat.destroy" payload)))
      as [[tr1 q] w1] eqn:Hrec.
    injection Hs as <- <- <-.
    assert (Hd : Forall is_del dels) by (repeat constructor).
    destruct (steps_dels _ _ _ _ _ _ Hd Hrec) as (rest' & Hp & Hq & He).
    exists tr1. split; [done|]. split.
    + rewrite <- Hp. by apply submseteq_inserts_r.
    + intros Hfin. subst q. destruct rest' as [|c1 rest']; [|done].
      rewrite app_nil_r in Hp. split; [done|].
      unfold dels in He. rewrite exec_all_dels3 in He. simpl in He.
      by injection He.
  - unfold room_destroy. cbn [run]. simpl exec at 1. cbv beta iota.
    by rewrite exec_all_dels3.
  - unfold gone. rewrite find_drop_ne by keys_ne. rewrite find_drop_ne by keys_ne.
    apply find_drop_eq.
  - exact Hmeta.
  - apply find_drop_eq.
  - intros k H1 H2 H3. unfold gone.
    rewrite !find_drop_ne by (by apply not_eq_sym). apply find_publish.
  - intros pathname existingToken token Hm. by apply (proxy_absent gone pathname roomId).
  - intros req id timestamp Hq. cbn [serve]. rewrite run_bind.
    destruct (authenticate_absent req gone roomId Hq Hmeta) as [msg ->]. by exists msg.
  - intros req Hq. cbn [serve]. rewrite run_bind.
    destruct (authenticate_absent req gone roomId Hq Hmeta) as [msg ->]. by exists msg.
Qed.

(** ** Expirations *)

(** X6.  A visit served without interruption leaves every key that is
    there with the expiration it had: its one write is an [HSET] on a key
    it has just read. *)
Lemma visit_keeps_expirations w pathname existingToken token k e :
  find w k = Some e ->
  exists e',
    find (run (proxy JSON_parse JSON_stringify pathname existingToken token) w).1 k = Some e'
    /\ e_exp e' = e_exp e.
Proof.
  intros Hk. unfold proxy.
  destruct (room_match pathname) as [roomId|]; [|by exists e].
  cbn [run]. simpl exec at 1.
  destruct (find w (meta_key roomId)) as [e0|] eqn:Hf; [|by exists e].
  destruct (e_val e0) as [h| |] eqn:Hv; try by exists e.
  case_decide; [by exists e|]. cbv beta iota.
  destruct (recognized _ _); [by exists e|].
  destruct (2 <=? _)%nat; [by exists e|].
  cbn [run]. simpl exec at 1. rewrite Hf, Hv. cbn [run fst].
  destruct (decide (meta_key roomId = k)) as [<-|Hne].
  - eexists. split.
    + apply find_put_eq. apply find_alive in Hf. exact Hf.
    + simpl. congruence.
  - exists e. by rewrite find_put_ne.
Qed.

End Properties.

(** * Concrete runs *)

(** ** Evaluations *)

(** C1.  Ten admissions to a fresh room whose reads the store serves
    before their writes: every one of them is admitted with a cookie of
    its own, none is told the room is full, and the membership list that
    is left holds the token of the last writer alone. *)
Theorem ten_overlapping_admissions :
  let s := sys_run Json.parse Json.stringify sys0 ten_racing in
  map (outcome_at s) (seq 1 10) = repeat (Some Granted) 10
  /\ members_of (world s) "room1" = Some [JStr "visitor-10"].
Proof. vm_compute. split; reflexivity. Qed.

(** The same ten admissions one after the other: two are admitted, eight
    find the room full. *)
Example ten_admissions_in_turn :
  let s := sys_run Json.parse Json.stringify sys0 ten_in_turn in
  map (outcome_at s) (seq 1 10) = Some Granted :: Some Granted :: repeat (Some RoomFull) 8
  /\ members_of (world s) "room1" = Some [JStr "visitor-1"; JStr "visitor-2"].
Proof. vm_compute. split; reflexivity. Qed.

(** C10.  An admission whose read is served one second before the room's
    600 seconds are over and whose write is served when they are: the
    write puts the metadata key back, without an expiration.  Far later
    the room is still there, a visit is admitted to it, and the store has
    no remaining lifetime to report for it. *)
Theorem room_outlives_its_lifetime :
  let s := sys_run Json.parse Json.stringify sys0 late_write in
  now (world s) = 100600
  /\ outcome_at s 1 = Some Granted
  /\ e_exp <$> find (world s) (meta_key "room1") = Some None
  /\ members_of (world s) "room1" = Some [JStr "visitor-1"]
  /\ (run (proxy Json.parse Json.stringify "/room/room1" None "visitor-2") (world s)).2
     = inr (Next (Some "visitor-2"))
  /\ (run (room_ttl alice) (world s)).2 = inr 0.
Proof. vm_compute. repeat split; reflexivity. Qed.

(** C3.  A stored [connected] value that is one bare token: the admission
    path reads one member, the session authenticator reads none. *)
Lemma readers_disagree_on_bare_token :
  proxy_connected Json.parse (JStr "V1StGXR8_Z5jdHi6B-myT") = [JStr "V1StGXR8_Z5jdHi6B-myT"]
  /\ auth_connected Json.parse (JStr "V1StGXR8_Z5jdHi6B-myT") = []
  /\ proxy_connected Json.parse (JStr "V1StGXR8_Z5jdHi6B-myT")
     <> auth_connected Json.parse (JStr "V1StGXR8_Z5jdHi6B-myT").
Proof. vm_compute. repeat split; [reflexivity..|discriminate]. Qed.

(** C7.  Two requests to each of the four routes behind the auth
    middleware, for a room with one member: one without the cookie, one
    with a cookie that is no member's.  The [derive] step refuses the
    first as unauthorized and the second as an invalid token.  The
    plugin's [onError] hook would answer both with status 401 and one
    body, but it is registered without a scope while [derive] is
    scoped: it does not reach the routes, whose error hooks are none, and
    each refusal is answered with status 500 and its own message. *)
Theorem auth_failures_answered_apart :
  let no_cookie := mkApiRequest (Some "room1") None JUndefined in
  let stranger := mkApiRequest (Some "room1") (Some "stranger") JUndefined in
  let routes req := [RoomTtl req; RoomDestroy req; MessagesPost req "m1" 1000; MessagesGet req] in
  let answers req :=
    map (fun r => respond (run (serve Json.parse Json.stringify r) w_half).2) (routes req) in
  (run (authMiddleware Json.parse no_cookie) w_half).2 = inl (AuthError "Unauthorized")
  /\ (run (authMiddleware Json.parse stranger) w_half).2 = inl (AuthError "Invalid token")
  /\ answers no_cookie = repeat (Some (500, JStr "Unauthorized")) 4
  /\ answers stranger = repeat (Some (500, JStr "Invalid token")) 4
  /\ onError (AuthError "Unauthorized") = Some (401, JObj [("error", JStr "Unauthorized")])
  /\ onError (AuthError "Invalid token") = Some (401, JObj [("error", JStr "Unauthorized")])
  /\ reaches_user derive_scope = true
  /\ reaches_user onError_scope = false
  /\ route_error_hooks = [].
Proof. vm_compute. repeat split; reflexivity. Qed.

(** The scenario of the specification. *)
Example scenario_replies :
  let s := sys_run Json.parse Json.stringify sys0 scenario in
  map (outcome_at s) [1; 2; 3]%nat = [Some Granted; Some Granted; Some RoomFull]
  /\ reply_of s 4
     = Some (inr (Json (JObj [("message",
                               mk_message "m1" "alice" "hi" 1000 "room1" "visitor-1")])))
  /\ reply_of s 5
     = Some (inr (Json (JObj [("messages",
          JArr [JObj [("id", JStr "m1"); ("sender", JStr "alice"); ("text", JStr "hi");
                      ("timestamp", JNum 1000); ("roomId", JStr "room1");
                      ("token", JUndefined)]])])))
  /\ reply_of s 6
     = Some (inr (Json (JObj [("messages",
          JArr [mk_message "m1" "alice" "hi" 1000 "room1" "visitor-1"])])))
  /\ remaining (world s) (messages_key "room1") = Some 600.
Proof. vm_compute. repeat split; reflexivity. Qed.

(** C6.  A member destroys the room while a visit is between its read
    and its write: the five commands of the destroy are served after the
    visit's read and before its write, and the destroy answers.  The
    write then puts the metadata key back, with the destroyer and the
    visitor as members and no expiration.  Far later, with nothing else in
    flight, a new visit of the room is told that the room is full, not
    that there is no such room; the destroyer's listing succeeds, and so
    does their post. *)
Theorem room_outlives_destruction :
  let s := sys_run Json.parse Json.stringify sys0 write_after_destroy in
  let w := world s in
  let member b := mkApiRequest (Some "room1") (Some "visitor-1") b in
  map fst (served s) = [0; 0; 1; 1; 2; 3; 3; 3; 3; 3; 2]%nat
  /\ reply_of s 3 = Some (inr (Json JUndefined))
  /\ events w = [mkEvent "room1" "chat.destroy" (JObj [("isDestroyed", JBool true)])]
  /\ outcome_at s 2 = Some Granted
  /\ e_exp <$> find w (meta_key "room1") = Some None
  /\ members_of w "room1" = Some [JStr "visitor-1"; JStr "visitor-2"]
  /\ (run (serve Json.parse Json.stringify (Visit "/room/room1" None "visitor-3")) w).2
     = inr (Page (Redirect "/?error=room-full"))
  /\ (run (serve Json.parse Json.stringify (MessagesGet (member JUndefined))) w).2
     = inr (Json (JObj [("messages", JArr [])]))
  /\ (run (serve Json.parse Json.stringify
             (MessagesPost (member (JObj [("sender", JStr "alice"); ("text", JStr "hi")]))
                "m1" 1000)) w).2
     = inr (Json (JObj [("message",
                         JObj [("id", JStr "m1"); ("sender", JStr "alice");
                               ("text", JStr "hi"); ("timestamp", JNum 1000);
                               ("roomId", JStr "room1"); ("token", JStr "visitor-1")])])).
Proof. vm_compute. repeat split; reflexivity. Qed.

(** The paths the middleware takes for a room's page. *)
Example room_match_paths :
  (room_match "/room/abc", room_match "/room/a/b", room_match "/room/", room_match "/rooms/x")
  = (Some "abc", None, None, None).
Proof. reflexivity. Qed.

(** A room whose 600 seconds are over, its keys not purged: the lifetime
    handler answers 0 and a visit finds no room. *)
Example after_expiry :
  let w := tick 300 w_half in
  is_Some (keys w !! meta_key "room1")
  /\ find w (meta_key "room1") = None
  /\ (run (room_ttl alice) w).2 = inr 0
  /\ (run (proxy Json.parse Json.stringify "/room/room1" (Some "visitor-1") "visitor-2") w).2
     = inr (Redirect "/?error=room-not-found").
Proof. vm_compute. repeat split; try reflexivity. eexists. reflexivity. Qed.

(** C4.  A member's post to the room that [late_write] left without an
    expiration.  The room is there, the request passes the middleware and
    the schema, and the answer is the message with all six fields, which
    is also published.  But the store reports -1 for the lifetime of the
    metadata key, and [EXPIRE] with -1 deletes the log the message has
    just been put into: after the post the log key is gone, and a listing
    right after it is empty. *)
Theorem post_without_expiration :
  let w := world (sys_run Json.parse Json.stringify sys0 late_write) in
  let member b := mkApiRequest (Some "room1") (Some "visitor-1") b in
  let message := JObj [("id", JStr "m1"); ("sender", JStr "alice"); ("text", JStr "hi");
                       ("timestamp", JNum 1000); ("roomId", JStr "room1");
                       ("token", JStr "visitor-1")] in
  let r := run (serve Json.parse Json.stringify
                  (MessagesPost (member (JObj [("sender", JStr "alice"); ("text", JStr "hi")]))
                     "m1" 1000)) w in
  e_exp <$> find w (meta_key "room1") = Some None
  /\ snd <$> exec (TTL (meta_key "room1")) w = Some (-1)
  /\ log_of w "room1" = []
  /\ r.2 = inr (Json (JObj [("message", message)]))
  /\ events r.1 = (events w ++ [mkEvent "room1" "chat.message" message])%list
  /\ find r.1 (messages_key "room1") = None
  /\ log_of r.1 "room1" = []
  /\ (run (serve Json.parse Json.stringify (MessagesGet (member JUndefined))) r.1).2
     = inr (Json (JObj [("messages", JArr [])])).
Proof. vm_compute. repeat split; reflexivity. Qed.

(** The codec on a few texts. *)
Example parse_sample : Json.parse (" " +:+ Json.stringify sample +:+ "  ") = Some sample.
Proof. vm_compute. reflexivity. Qed.

Example parse_spaced :
  Json.parse "[1 , 2,[ ] , {}, true,false , null, -0, 10]"
  = Some (JArr [JNum 1; JNum 2; JArr []; JObj []; JBool true; JBool false; JNull;
                JNum 0; JNum 10]).
Proof. vm_compute. reflexivity. Qed.

Example parse_refused :
  (Json.parse "abc", Json.parse "01", Json.parse "[1,]", Json.parse "", Json.parse "nul",
   Json.parse "[] x")
  = (None, None, None, None, None, None).
Proof. vm_compute. reflexivity. Qed.

(** ** Instances *)

Lemma readmission_idempotent_witness :
  run (proxy Json.parse Json.stringify "/room/room1" (Some "visitor-1") "visitor-2") w_half
  = (w_half, inr (Next None)).
Proof.
  refine (proj1 (readmission_idempotent Json.parse Json.stringify w_half
                   "/room/room1" "room1" "visitor-1" "visitor-2"
                   {["connected" := JStr (Json.stringify (JArr [JStr "visitor-1"]));
                     "createdAt" := JStr "0"]} _ _ _ _)).
  - vm_compute. reflexivity.
  - vm_compute. reflexivity.
  - discriminate.
  - vm_compute. left. reflexivity.
Defined.

Lemma post_appends_and_aligns_witness :
  exists w',
    run (messages_post Json.stringify alice "alice" "hi" "m1" 1000) w_stream
    = (w', inr (JObj [("message",
                       JObj [("id", JStr "m1"); ("sender", JStr "alice"); ("text", JStr "hi");
                             ("timestamp", JNum 1000); ("roomId", JStr "room1");
                             ("token", JStr "visitor-1")])]))
    /\ log_of w' "room1"
       = [JStr (Json.stringify
                  (JObj [("id", JStr "m1"); ("sender", JStr "alice"); ("text", JStr "hi");
                         ("timestamp", JNum 1000); ("roomId", JStr "room1");
                         ("token", JStr "visitor-1")]))]
    /\ remaining w' (messages_key "room1") = Some 300
    /\ remaining w' (meta_key "room1") = Some 300
    /\ remaining w' (history_key "room1") = Some 300
    /\ remaining w' "room1" = Some 300.
Proof.
  destruct (post_appends_and_aligns Json.stringify alice "alice" "hi" "m1" 1000 w_stream 300)
    as (w' & Hrun & Hlog & _ & Hm & Hmeta & Hh & Hb & _).
  - vm_compute. reflexivity.
  - vm_compute. exact I.
  - exists w'. split; [exact Hrun|]. split; [exact Hlog|].
    split; [exact Hm|]. split; [exact Hmeta|]. split.
    + apply Hh. vm_compute. eexists. reflexivity.
    + apply Hb. vm_compute. eexists. reflexivity.
Defined.

Lemma list_messages_redaction_witness :
  run (messages_get Json.parse alice (mkApiRequest (Some "room1") (Some "visitor-1") JUndefined))
      w_log
  = (w_log,
     inr (JObj [("messages",
                 JArr [JObj [("id", JStr "m1"); ("sender", JStr "alice"); ("text", JStr "hi");
                             ("timestamp", JNum 1000); ("roomId", JStr "room1");
                             ("token", JStr "visitor-1")];
                       JObj [("id", JStr "m2"); ("sender", JStr "bob"); ("text", JStr "hello");
                             ("timestamp", JNum 2000); ("roomId", JStr "room1");
                             ("token", JUndefined)]])])).
Proof.
  refine (eq_trans
            (proj1 (list_messages_redaction Json.parse alice
                      (mkApiRequest (Some "room1") (Some "visitor-1") JUndefined)
                      w_log raw_log _ _)) _).
  - discriminate.
  - vm_compute. reflexivity.
  - vm_compute. reflexivity.
Defined.

(** What the listing of [raw_log] holds for each of the two members. *)
Example listing_for_alice :
  masked_messages Json.parse "visitor-1" raw_log
  = [mk_message "m1" "alice" "hi" 1000 "room1" "visitor-1";
     JObj [("id", JStr "m2"); ("sender", JStr "bob"); ("text", JStr "hello");
           ("timestamp", JNum 2000); ("roomId", JStr "room1"); ("token", JUndefined)]].
Proof. vm_compute. reflexivity. Qed.

(** * The capacity invariant under interleaving *)

Section CapacityProof.

Variable JSON_parse : string -> option JsVal.
Variable JSON_stringify : JsVal -> string.

(** What the handlers rely on: an array of at most two tokens that is
    written with [JSON.stringify] is read back by [JSON.parse]. *)
Hypothesis parse_stringify : forall toks : list string,
  (length toks <= 2)%nat ->
  JSON_parse (JSON_stringify (JArr (map JStr toks))) = Some (JArr (map JStr toks)).

Lemma find_keys w k e : find w k = Some e -> keys w !! k = Some e.
Proof.
  unfold find. destruct (keys w !! k) as [e'|]; [|discriminate].
  destruct (alive (now w) e'); [congruence|discriminate].
Qed.

Lemma proxy_connected_capped v :
  capped_value JSON_stringify v ->
  exists toks, (length toks <= 2)%nat /\ proxy_connected JSON_parse v = map JStr toks.
Proof.
  intros [->|(toks & Hlen & ->)].
  - exists []. split; [simpl; lia|reflexivity].
  - unfold proxy_connected. simpl.
    destruct (String.eqb _ ""); simpl; [exists []; split; [simpl; lia|reflexivity]|].
    rewrite parse_stringify by done. by exists toks.
Qed.

Lemma auth_connected_capped v :
  capped_value JSON_stringify v ->
  exists toks, (length toks <= 2)%nat /\ auth_connected JSON_parse v = map JStr toks.
Proof.
  intros [->|(toks & Hlen & ->)].
  - exists []. split; [simpl; lia|reflexivity].
  - unfold auth_connected. simpl.
    destruct (String.eqb _ ""); simpl; [exists []; split; [simpl; lia|reflexivity]|].
    rewrite parse_stringify by done. by exists toks.
Qed.

Lemma hash_set_lookup fields : forall h f v,
  hash_set fields h !! f = Some v -> In (f, v) fields \/ h !! f = Some v.
Proof.
  unfold hash_set. induction fields as [|[k x] rest IH]; intros h f v Hl; simpl in *.
  - by right.
  - destruct (IH _ _ _ Hl) as [Hin|Hh]; [by left; right|].
    destruct (decide (k = f)) as [->|Hne].
    + rewrite lookup_insert_eq in Hh. injection Hh as ->. left. by left.
    + rewrite lookup_insert_ne in Hh by done. by right.
Qed.

Lemma capped_hash_set fields h :
  capped_cmd JSON_stringify (HSET "" fields) ->
  capped_hash JSON_stringify h ->
  capped_hash JSON_stringify (hash_set fields h).
Proof.
  intros Hc Hh. unfold capped_hash in *.
  destruct (hash_set fields h !! "connected") as [v|] eqn:Hl; simpl; [|by left].
  destruct (hash_set_lookup _ _ _ _ Hl) as [Hin|Hold].
  - by apply Hc.
  - by rewrite Hold in Hh.
Qed.

Lemma capped_put w k e :
  capped_store JSON_stringify w ->
  (forall h, e_val e = VHash h -> capped_hash JSON_stringify h) ->
  capped_store JSON_stringify (put w k e).
Proof.
  intros Hw He k' e' h Hl Hv. unfold put in Hl. simpl in Hl.
  destruct (decide (k = k')) as [->|Hne].
  - rewrite lookup_insert_eq in Hl. injection Hl as <-. by apply He.
  - rewrite lookup_insert_ne in Hl by done. by eapply Hw.
Qed.

Lemma capped_drop w k : capped_store JSON_stringify w -> capped_store JSON_stringify (drop w k).
Proof.
  intros Hw k' e' h Hl Hv. unfold drop in Hl. simpl in Hl.
  apply lookup_delete_Some in Hl as [_ Hl]. by eapply Hw.
Qed.

Lemma capped_empty_hash : capped_hash JSON_stringify ∅.
Proof. by left. Qed.

(** A capped command on a capped store leaves it capped and is answered
    with a capped reply. *)
Lemma exec_capped c w w' x :
  capped_store JSON_stringify w ->
  capped_cmd JSON_stringify c ->
  exec c w = Some (w', x) ->
  capped_store JSON_stringify w' /\ capped_res JSON_stringify c x.
Proof.
  intros Hw Hc. destruct c; simpl in *.
  - destruct (find w k) as [e|] eqn:Hf.
    + destruct (e_val e) as [h| |] eqn:Hv; try discriminate.
      intros [= <- <-]. split; [done|]. intros m. case_decide; [done|].
      intros [= <-]. apply find_keys in Hf. by eapply Hw.
    + intros [= <- <-]. done.
  - destruct (find w k) as [e|]; [destruct (e_val e) as [h| |]|]; intros [=]; by subst.
  - destruct (find w k) as [e|] eqn:Hf.
    + destruct (e_val e) as [h| |] eqn:Hv; try discriminate.
      intros [= <- <-]. split; [|done]. apply capped_put; [done|].
      simpl. intros h' [= <-]. apply capped_hash_set; [done|].
      apply find_keys in Hf. by eapply Hw.
    + intros [= <- <-]. split; [|done]. apply capped_put; [done|].
      simpl. intros h' [= <-]. apply capped_hash_set; [done|apply capped_empty_hash].
  - destruct (find w k) as [e|] eqn:Hf.
    + destruct (secs <=? 0); intros [= <- <-]; (split; [|done]).
      * by apply capped_drop.
      * apply capped_put; [done|]. simpl. intros h Hv.
        apply find_keys in Hf. by eapply Hw.
    + intros [= <- <-]. done.
  - destruct (find w k) as [e|]; [destruct (e_exp e)|]; intros [= <- <-]; done.
  - destruct (find w k); intros [= <- <-]; done.
  - destruct (find w k); intros [= <- <-]; (split; [by apply capped_drop|done]).
  - destruct (find w k) as [e|] eqn:Hf.
    + destruct (e_val e) as [|l|] eqn:Hv; try discriminate.
      intros [= <- <-]. split; [|done]. by apply capped_put.
    + intros [= <- <-]. split; [|done]. by apply capped_put.
  - destruct (find w k) as [e|]; [destruct (e_val e)|]; intros [=]; by subst.
  - intros [= <- <-]. done.
Qed.

Lemma safe_pending {R} cs (k : Prog R) :
  Forall (capped_cmd JSON_stringify) cs -> safe JSON_stringify k ->
  safe JSON_stringify (pending cs k).
Proof. intros Hcs Hk. destruct cs; [done|]. by split. Qed.

(** One step of a safe handler on a capped store. *)
Lemma step_capped {R} choice (p : Prog R) : forall w w' p' c,
  capped_store JSON_stringify w ->
  safe JSON_stringify p ->
  step choice p w = Some (w', p', c) ->
  capped_store JSON_stringify w' /\ safe JSON_stringify p'.
Proof.
  induction p as [r|e|c0 k IH|cs k IH]; intros w w' p' c Hw Hp Hs; simpl in Hs;
    try discriminate.
  - destruct Hp as [Hc Hk].
    destruct (exec c0 w) as [[w1 x]|] eqn:He.
    + injection Hs as <- <- <-.
      destruct (exec_capped _ _ _ _ Hw Hc He) as [Hw1 Hx]. split; [done|]. by apply Hk.
    + injection Hs as <- <- <-. done.
  - destruct Hp as [Hcs Hk].
    destruct cs as [|c1 cs]; [by eapply IH|].
    destruct ((c1 :: cs) !! choice) as [cmd|] eqn:Hl; [|discriminate].
    assert (Hcmd : capped_cmd JSON_stringify cmd).
    { eapply List.Forall_forall; [exact Hcs|]. apply (proj1 (list_elem_of_In _ _)).
      eapply list_elem_of_lookup_2. exact Hl. }
    destruct (exec cmd w) as [[w1 x]|] eqn:He.
    + injection Hs as <- <- <-.
      destruct (exec_capped _ _ _ _ Hw Hcmd He) as [Hw1 _]. split; [done|].
      apply safe_pending; [|done].
      apply List.Forall_forall. intros y Hy. eapply List.Forall_forall; [exact Hcs|].
      apply (proj1 (list_elem_of_In _ _)). rewrite (delete_Permutation _ _ _ Hl).
      apply list_elem_of_In in Hy. by right.
    + injection Hs as <- <- <-. done.
Qed.

Lemma safe_bind {A B} (p : Prog A) (f : A -> Prog B) :
  safe JSON_stringify p -> (forall a, safe JSON_stringify (f a)) ->
  safe JSON_stringify (bind p f).
Proof.
  intros Hp Hf. induction p as [a|e|c k IH|cs k IH]; simpl in *.
  - apply Hf.
  - done.
  - destruct Hp as [Hc Hk]. split; [done|]. intros x Hx. apply IH. by apply Hk.
  - destruct Hp as [Hcs Hk]. split; [done|]. by apply IH.
Qed.

Lemma safe_proxy pathname existingToken token :
  safe JSON_stringify (proxy JSON_parse JSON_stringify pathname existingToken token).
Proof.
  unfold proxy. destruct (room_match pathname) as [roomId|]; [|done].
  split; [done|]. intros [m|] Hm; [|done].
  specialize (Hm m eq_refl).
  destruct (proxy_connected_capped _ Hm) as (toks & Hlen & ->).
  destruct (recognized _ _); [done|].
  destruct (2 <=? length (map JStr toks))%nat eqn:Hfull; [done|].
  apply Nat.leb_gt in Hfull. rewrite length_map in Hfull.
  split; [|done]. intros v [[= <-]|[]]. right. exists (toks ++ [token])%list.
  split.
  - rewrite length_app. simpl. lia.
  - by rewrite map_app.
Qed.

Lemma safe_authenticate req : safe JSON_stringify (authMiddleware JSON_parse req).
Proof.
  unfold authMiddleware.
  destruct (present (q_roomId req)); [|done]. destruct (present (cookie req)); [|done].
  split; [done|]. intros x _. by destruct (includes _ _).
Qed.

Lemma safe_serve r : safe JSON_stringify (serve JSON_parse JSON_stringify r).
Proof.
  destruct r as [pathname existingToken token|roomId createdAt|req|req|req id ts|req];
    cbn [serve].
  - apply safe_bind; [apply safe_proxy|done].
  - apply safe_bind; [|done]. split.
    + intros v [[= <-]|[[=]|[]]]. right. exists []. split; [simpl; lia|reflexivity].
    + done.
  - apply safe_bind; [apply safe_authenticate|]. intros auth.
    apply safe_bind; [|done]. by split.
  - apply safe_bind; [apply safe_authenticate|]. intros auth.
    apply safe_bind; [|done]. split; [done|]. intros _ _. split; [|done].
    by repeat constructor.
  - apply safe_bind; [apply safe_authenticate|]. intros auth.
    destruct (parse_body (body req)) as [[sender text]|]; [|done].
    apply safe_bind; [|done]. unfold messages_post. split; [done|]. intros n _.
    destruct (n =? 0); [done|]. split; [done|]. intros _ _. split; [done|]. intros _ _.
    split; [done|]. intros t _. split; [|done]. by repeat constructor.
  - apply safe_bind; [apply safe_authenticate|]. intros auth.
    apply safe_bind; [|done]. by split.
Qed.

Lemma sys_step_capped s a :
  capped_sys JSON_stringify s ->
  capped_sys JSON_stringify (sys_step JSON_parse JSON_stringify s a).
Proof.
  intros [Hw Hp]. destruct a as [r|tid choice|secs]; simpl.
  - split; [done|]. apply Forall_app. split; [done|].
    constructor; [apply safe_serve|constructor].
  - destruct (pool s !! tid) as [p|] eqn:Hl; [|by split].
    destruct (step choice p (world s)) as [[[w' p'] c]|] eqn:Hs; [|by split].
    assert (Hsafe : safe JSON_stringify p).
    { eapply List.Forall_forall; [exact Hp|]. apply (proj1 (list_elem_of_In _ _)).
      eapply list_elem_of_lookup_2. exact Hl. }
    destruct (step_capped _ _ _ _ _ _ Hw Hsafe Hs) as [Hw' Hp'].
    split; [done|]. simpl. apply Forall_insert; done.
  - by split.
Qed.

Lemma sys_run_capped acts : forall s,
  capped_sys JSON_stringify s ->
  capped_sys JSON_stringify (sys_run JSON_parse JSON_stringify s acts).
Proof.
  induction acts as [|a acts IH]; intros s Hs; [done|].
  apply IH. by apply sys_step_capped.
Qed.

(** X1.  Whatever requests arrive at a server that starts with an empty
    store, however the store interleaves their commands and however time
    passes between them, each reader of a room's membership reads at most
    two entries. *)
Theorem membership_never_exceeds_two (acts : list Act) (roomId : string) (raw : JsVal) :
  stored_connected (world (sys_run JSON_parse JSON_stringify sys0 acts)) roomId = Some raw ->
  (length (proxy_connected JSON_parse raw) <= 2)%nat
  /\ (length (auth_connected JSON_parse raw) <= 2)%nat.
Proof.
  intros Hraw.
  assert (H0 : capped_sys JSON_stringify sys0).
  { split; [|constructor]. intros k e h Hl. cbn in Hl. by rewrite lookup_empty in Hl. }
  destruct (sys_run_capped acts _ H0) as [Hw _].
  unfold stored_connected in Hraw.
  destruct (find _ (meta_key roomId)) as [e|] eqn:Hf; [|discriminate].
  destruct (e_val e) as [h| |] eqn:Hv; try discriminate.
  injection Hraw as <-. apply find_keys in Hf.
  specialize (Hw _ _ _ Hf Hv).
  destruct (proxy_connected_capped _ Hw) as (t1 & H1 & ->).
  destruct (auth_connected_capped _ Hw) as (t2 & H2 & ->).
  by rewrite !length_map.
Qed.

End CapacityProof.

(** * The codec reads back the token arrays it writes *)

Lemma sapp_nil s : "" +:+ s = s.
Proof. reflexivity. Qed.

Lemma sapp_cons c a b : String c a +:+ b = String c (a +:+ b).
Proof. reflexivity. Qed.

Lemma sapp_assoc a b c : (a +:+ b) +:+ c = a +:+ (b +:+ c).
Proof.
  induction a as [|x a IH]; [reflexivity|].
  rewrite !sapp_cons. by f_equal.
Qed.

Lemma sapp_length a b : String.length (a +:+ b) = (String.length a + String.length b)%nat.
Proof.
  induction a as [|x a IH]; [reflexivity|].
  rewrite sapp_cons. cbn [String.length]. by rewrite IH.
Qed.

(** One character between quotes, printed and read. *)
Lemma str_body_quote_char c r :
  Json.str_body (Json.quote_char c +:+ r) = Json.cons_char c (Json.str_body r).
Proof. destruct c as [[] [] [] [] [] [] [] []]; reflexivity. Qed.

Lemma str_body_quote_body s : forall rest,
  Json.str_body (Json.quote_body s +:+ rest) = Some (s, rest).
Proof.
  induction s as [|c s IH]; intros rest.
  - reflexivity.
  - cbn [Json.quote_body]. rewrite sapp_assoc, str_body_quote_char, IH. reflexivity.
Qed.

Lemma value_quoted fuel r :
  Json.value (S fuel) (String "034" r)
  = match Json.str_body r with
    | Some (t, r') => Some (JStr t, r')
    | None => None
    end.
Proof. reflexivity. Qed.

Lemma items_step fuel s :
  Json.items (S fuel) s
  = match Json.value fuel s with
    | None => None
    | Some (v, rest) =>
        match Json.skip_ws rest with
        | String "," rest' =>
            match Json.items fuel rest' with
            | Some (l, rest'') => Some (v :: l, rest'')
            | None => None
            end
        | String "]" rest' => Some ([v], rest')
        | _ => None
        end
    end.
Proof. reflexivity. Qed.

Lemma value_bracket fuel r :
  Json.value (S fuel) (String "[" (String "034" r))
  = match Json.items fuel (String "034" r) with
    | Some (l, rest') => Some (JArr l, rest')
    | None => None
    end.
Proof. reflexivity. Qed.

Lemma join_cons2 p q rest : Json.join (p :: q :: rest) = p +:+ "," +:+ Json.join (q :: rest).
Proof. reflexivity. Qed.

Lemma items_tokens toks : forall t rest fuel,
  (length toks + 2 <= fuel)%nat ->
  Json.items fuel (Json.join (map Json.quote (t :: toks)) +:+ String "]" rest)
  = Some (map JStr (t :: toks), rest).
Proof.
  induction toks as [|t' toks IH]; intros t rest fuel Hfuel.
  - destruct fuel as [|[|fuel]]; [simpl in Hfuel; lia..|].
    rewrite items_step. cbn [map Json.join]. unfold Json.quote. rewrite sapp_cons.
    rewrite value_quoted, str_body_quote_body. reflexivity.
  - destruct fuel as [|[|fuel]]; [simpl in Hfuel; lia..|].
    rewrite items_step. cbn [map]. rewrite join_cons2, !sapp_assoc.
    unfold Json.quote at 1. rewrite sapp_cons.
    rewrite value_quoted, str_body_quote_body. rewrite sapp_cons, sapp_nil.
    change (Json.skip_ws (String "," ?x)) with (String "," x).
    cbv beta iota.
    change (Json.quote t' :: map Json.quote toks) with (map Json.quote (t' :: toks)).
    rewrite IH by (simpl in *; lia). reflexivity.
Qed.

Lemma join_quote_length toks :
  (length toks <= String.length (Json.join (map Json.quote toks)))%nat.
Proof.
  induction toks as [|t [|t' toks] IH].
  - simpl. lia.
  - simpl. lia.
  - cbn [map] in *. rewrite join_cons2, !sapp_length. simpl in *. lia.
Qed.

(** The round trip the capacity invariant rests on, for the codec. *)
Lemma json_parse_stringify (toks : list string) :
  Json.parse (Json.stringify (JArr (map JStr toks))) = Some (JArr (map JStr toks)).
Proof.
  destruct toks as [|t toks]; [reflexivity|].
  unfold Json.parse.
  assert (Hs : Json.stringify (JArr (map JStr (t :: toks)))
               = String "[" (Json.join (map Json.quote (t :: toks)) +:+ String "]" "")).
  { cbn [Json.stringify]. rewrite map_map. reflexivity. }
  rewrite Hs. clear Hs.
  assert (Hq : exists r, Json.join (map Json.quote (t :: toks)) +:+ String "]" ""
                         = String "034" r).
  { destruct toks; cbn [map]; [cbn [Json.join]|rewrite join_cons2];
      unfold Json.quote at 1; rewrite sapp_cons; eauto. }
  destruct Hq as [r Hr].
  pose proof (items_tokens toks t "" (String.length (Json.join (map Json.quote (t :: toks)) +:+ String "]" "") + 1)) as Hit.
  cbn [String.length]. rewrite Hr in *. rewrite value_bracket.
  replace (S (String.length (String "034" r))) with (String.length (String "034" r) + 1)%nat by lia.
  rewrite Hit; [reflexivity|].
  rewrite <- Hr, sapp_length. pose proof (join_quote_length (t :: toks)). simpl in *. lia.
Qed.

(** * Visits *)

Lemma strip_prefix_spec p : forall s r, strip_prefix p s = Some r <-> s = p +:+ r.
Proof.
  induction p as [|a p IH]; intros s r; simpl.
  - split; [by intros [= ->]|by intros ->].
  - destruct s as [|b s]; [split; intros [=]|].
    destruct (Ascii.eqb_spec a b) as [->|Hne].
    + rewrite IH. split; [by intros ->|]. rewrite sapp_cons. by intros [= ->].
    + split; [intros [=]|]. rewrite sapp_cons. intros [= <- _]. done.
Qed.

(** X16.  The middleware takes a path for a room's page exactly when it
    is [/room/] followed by a room id that is not empty and has no slash;
    the id it works with is that one. *)
Theorem room_match_spec (pathname roomId : string) :
  room_match pathname = Some roomId
  <-> pathname = "/room/" +:+ roomId /\ roomId <> "" /\ has_slash roomId = false.
Proof.
  unfold room_match. split.
  - destruct (strip_prefix "/room/" pathname) as [r|] eqn:Hs; [|discriminate].
    apply strip_prefix_spec in Hs.
    destruct (String.eqb_spec r ""); [discriminate|].
    destruct (has_slash r) eqn:Hh; [discriminate|].
    intros [= <-]. done.
  - intros (-> & Hne & Hh).
    assert (Hs : strip_prefix "/room/" ("/room/" +:+ roomId) = Some roomId)
      by (by apply strip_prefix_spec).
    rewrite Hs, Hh. by destruct (String.eqb_spec roomId "").
Qed.

Lemma room_match_nonempty pathname roomId :
  room_match pathname = Some roomId -> roomId <> "".
Proof.
  unfold room_match. destruct (strip_prefix "/room/" pathname) as [r|]; [|discriminate].
  destruct (String.eqb_spec r ""); [discriminate|].
  destruct (has_slash r); [discriminate|]. by intros [= <-].
Qed.

Section Visits.

Variable JSON_parse : string -> option JsVal.
Variable JSON_stringify : JsVal -> string.

(** A visit of a room that is there, from start to end. *)
Lemma proxy_run_room w pathname roomId existingToken token e h :
  room_match pathname = Some roomId ->
  find w (meta_key roomId) = Some e ->
  e_val e = VHash h ->
  h <> ∅ ->
  run (proxy JSON_parse JSON_stringify pathname existingToken token) w
  = let connected := proxy_connected JSON_parse (default JUndefined (h !! "connected")) in
    if recognized existingToken connected then (w, inr (Next None))
    else if (2 <=? length connected)%nat then (w, inr (Redirect "/?error=room-full"))
    else (put w (meta_key roomId)
            (mkEntry (VHash (<["connected" :=
                                 JStr (JSON_stringify (JArr (connected ++ [JStr token])%list))]> h))
               (e_exp e)),
          inr (Next (Some token))).
Proof.
  intros Hm Hf Hv Hne. unfold proxy. rewrite Hm. cbn [run]. simpl exec at 1.
  rewrite Hf, Hv. case_decide; [done|]. cbv beta iota zeta.
  destruct (recognized _ _); [done|].
  destruct (2 <=? _)%nat; [done|].
  cbn [run]. simpl exec at 1. rewrite Hf, Hv. reflexivity.
Qed.

(** X3.  A visit that brings no token of the room and finds two or more
    members is sent away with room-full after its one read: the store and
    the events are as before, and no write follows. *)
Theorem visit_full_room (w : World) (pathname roomId : string)
    (existingToken : option string) (token : string) (e : Entry)
    (h : gmap string JsVal) :
  room_match pathname = Some roomId ->
  find w (meta_key roomId) = Some e ->
  e_val e = VHash h ->
  h <> ∅ ->
  recognized existingToken
    (proxy_connected JSON_parse (default JUndefined (h !! "connected"))) = false ->
  (2 <= length (proxy_connected JSON_parse (default JUndefined (h !! "connected"))))%nat ->
  run (proxy JSON_parse JSON_stringify pathname existingToken token) w
  = (w, inr (Redirect "/?error=room-full"))
  /\ step 0 (proxy JSON_parse JSON_stringify pathname existingToken token) w
     = Some (w, Ret (Redirect "/?error=room-full"), HGETALL (meta_key roomId)).
Proof.
  intros Hm Hf Hv Hne Hrec Hfull. split.
  - rewrite (proxy_run_room _ _ _ _ _ _ _ Hm Hf Hv Hne). cbv zeta. rewrite Hrec.
    apply Nat.leb_le in Hfull. by rewrite Hfull.
  - unfold proxy. rewrite Hm. cbn [step]. simpl exec at 1. rewrite Hf, Hv.
    case_decide; [done|]. cbv beta iota zeta. rewrite Hrec.
    apply Nat.leb_le in Hfull. by rewrite Hfull.
Qed.

(** X4.  A visit that brings no token of the room and finds fewer than
    two members is let in with the new token as its cookie.  The room's
    membership becomes the old one with the new token at its end; the
    other fields of the metadata, its expiration, every other key, the
    events and the clock are as before. *)
Theorem visit_grants (w : World) (pathname roomId : string)
    (existingToken : option string) (token : string) (e : Entry)
    (h : gmap string JsVal) :
  let connected := proxy_connected JSON_parse (default JUndefined (h !! "connected")) in
  room_match pathname = Some roomId ->
  find w (meta_key roomId) = Some e ->
  e_val e = VHash h ->
  h <> ∅ ->
  recognized existingToken connected = false ->
  (length connected < 2)%nat ->
  exists w' e' h',
    run (proxy JSON_parse JSON_stringify pathname existingToken token) w
    = (w', inr (Next (Some token)))
    /\ find w' (meta_key roomId) = Some e'
    /\ e_val e' = VHash h'
    /\ h' !! "connected" = Some (JStr (JSON_stringify (JArr (connected ++ [JStr token])%list)))
    /\ (forall field, field <> "connected" -> h' !! field = h !! field)
    /\ e_exp e' = e_exp e
    /\ (forall k, k <> meta_key roomId -> find w' k = find w k)
    /\ events w' = events w
    /\ now w' = now w.
Proof.
  intros connected Hm Hf Hv Hne Hrec Hlen.
  eexists _, _, _. split; [|split; [|split; [|split; [|split; [|split; [|split; [|split]]]]]]].
  - rewrite (proxy_run_room _ _ _ _ _ _ _ Hm Hf Hv Hne). cbv zeta. fold connected.
    rewrite Hrec. apply Nat.leb_gt in Hlen. rewrite Hlen. reflexivity.
  - apply find_put_eq. apply find_alive in Hf. exact Hf.
  - reflexivity.
  - apply lookup_insert_eq.
  - intros field Hfield. by apply lookup_insert_ne.
  - reflexivity.
  - intros k Hk. by apply find_put_ne.
  - reflexivity.
  - reflexivity.
Qed.

Lemma includes_snoc l token : includes (l ++ [JStr token])%list token = true.
Proof. apply includes_In. apply in_or_app. right. by left. Qed.

(** X5.  The token a visit is let in with is a credential at once: when
    the array the visit writes is one [JSON.parse] reads back, the auth
    middleware accepts a request for the room with that token, with the
    new membership in its session, and a later visit that presents the
    token is let through without a new one. *)
Theorem granted_token_is_accepted (w : World) (pathname roomId : string)
    (existingToken : option string) (token : string) (e : Entry)
    (h : gmap string JsVal) (b : JsVal) (other : string) :
  let connected := proxy_connected JSON_parse (default JUndefined (h !! "connected")) in
  let members := (connected ++ [JStr token])%list in
  let w' := (run (proxy JSON_parse JSON_stringify pathname existingToken token) w).1 in
  room_match pathname = Some roomId ->
  find w (meta_key roomId) = Some e ->
  e_val e = VHash h ->
  h <> ∅ ->
  recognized existingToken connected = false ->
  (length connected < 2)%nat ->
  token <> "" ->
  JSON_stringify (JArr members) <> "" ->
  JSON_parse (JSON_stringify (JArr members)) = Some (JArr members) ->
  run (authMiddleware JSON_parse (mkApiRequest (Some roomId) (Some token) b)) w'
  = (w', inr (mkSession roomId token members))
  /\ run (proxy JSON_parse JSON_stringify pathname (Some token) other) w'
     = (w', inr (Next None)).
Proof.
  intros connected members w' Hm Hf Hv Hne Hrec Hlen Htok Hs Hrt.
  assert (Hw' : w' = put w (meta_key roomId)
                       (mkEntry (VHash (<["connected" := JStr (JSON_stringify (JArr members))]> h))
                          (e_exp e))).
  { unfold w'. rewrite (proxy_run_room _ _ _ _ _ _ _ Hm Hf Hv Hne). cbv zeta.
    fold connected. rewrite Hrec. apply Nat.leb_gt in Hlen. by rewrite Hlen. }
  assert (Hf' : find w' (meta_key roomId)
                = Some (mkEntry (VHash (<["connected" := JStr (JSON_stringify (JArr members))]> h))
                          (e_exp e))).
  { rewrite Hw'. apply find_put_eq. apply find_alive in Hf. exact Hf. }
  assert (Hread : proxy_connected JSON_parse (JStr (JSON_stringify (JArr members))) = members).
  { unfold proxy_connected. simpl.
    destruct (String.eqb_spec (JSON_stringify (JArr members)) ""); [done|]. simpl.
    by rewrite Hrt. }
  assert (Hauth : auth_connected JSON_parse (JStr (JSON_stringify (JArr members))) = members).
  { unfold auth_connected. simpl.
    destruct (String.eqb_spec (JSON_stringify (JArr members)) ""); [done|]. simpl.
    by rewrite Hrt. }
  split.
  - unfold authMiddleware. cbn [q_roomId cookie].
    rewrite (present_intro roomId) by (by eapply room_match_nonempty).
    rewrite (present_intro token) by done.
    cbn [run]. simpl exec at 1. rewrite Hf'. cbn [e_val].
    rewrite lookup_insert_eq. cbn [default id]. cbv beta iota. rewrite Hauth.
    unfold members at 1. by rewrite includes_snoc.
  - rewrite (proxy_run_room w' pathname roomId (Some token) other _ _ Hm Hf' eq_refl).
    + cbv zeta. rewrite lookup_insert_eq. cbn [default id]. rewrite Hread.
      unfold recognized. rewrite present_intro by done.
      unfold members at 1. by rewrite includes_snoc.
    + intros Hempty. apply (f_equal (fun m => m !! "connected")) in Hempty.
      by rewrite lookup_insert_eq, lookup_empty in Hempty.
Qed.

End Visits.

(** * Rooms and their lifetime *)

Lemma find_tick d w k :
  find (tick d w) k
  = match keys w !! k with
    | Some e => if alive (now w + Z.max 0 d) e then Some e else None
    | None => None
    end.
Proof. reflexivity. Qed.

Section Rooms.

Variable JSON_parse : string -> option JsVal.
Variable JSON_stringify : JsVal -> string.

(** The creation of a room whose key is free, from start to end. *)
Lemma room_create_run w roomId createdAt :
  find w (meta_key roomId) = None ->
  let h0 := hash_set [("connected", JStr (JSON_stringify (JArr [])));
                      ("createdAt", JStr (show_Z createdAt))] ∅ in
  run (room_create JSON_stringify roomId createdAt) w
  = (put (put w (meta_key roomId) (mkEntry (VHash h0) None)) (meta_key roomId)
         (mkEntry (VHash h0) (Some (now w + ROOM_TTL_SECONDS))),
     inr (JObj [("roomId", JStr roomId)])).
Proof.
  intros Hf h0. unfold room_create. cbn [run]. simpl exec at 1. rewrite Hf.
  cbv beta iota. cbn [run]. simpl exec at 1.
  rewrite find_put_eq by done. reflexivity.
Qed.

Lemma room_create_members w roomId createdAt :
  find w (meta_key roomId) = None ->
  has_members JSON_stringify (run (room_create JSON_stringify roomId createdAt) w).1 roomId [].
Proof.
  intros Hf. rewrite (room_create_run _ _ _ Hf). cbv zeta. cbn [fst].
  eexists _, _. split.
  { apply find_put_eq. unfold alive, ROOM_TTL_SECONDS. simpl. apply Z.ltb_lt. lia. }
  split; [reflexivity|].
  unfold hash_set. simpl. rewrite lookup_insert_ne by done. apply lookup_insert_eq.
Qed.

(** X7.  Creating a room under an id whose key is free answers the id
    and leaves a metadata hash with the encoding of the empty membership
    and the creation time, 600 seconds to live.  The room is there for
    the next 599 seconds and gone from the 600th on, with no further
    command; every other key and the events are as before. *)
Theorem room_create_fresh (w : World) (roomId : string) (createdAt : Z) :
  find w (meta_key roomId) = None ->
  let r := run (room_create JSON_stringify roomId createdAt) w in
  r.2 = inr (JObj [("roomId", JStr roomId)])
  /\ has_members JSON_stringify r.1 roomId []
  /\ (exists e h, find r.1 (meta_key roomId) = Some e /\ e_val e = VHash h
                  /\ h !! "createdAt" = Some (JStr (show_Z createdAt)))
  /\ remaining r.1 (meta_key roomId) = Some 600
  /\ (forall d, 0 <= d < 600 -> is_Some (find (tick d r.1) (meta_key roomId)))
  /\ (forall d, 600 <= d -> find (tick d r.1) (meta_key roomId) = None)
  /\ (forall k, k <> meta_key roomId -> find r.1 k = find w k)
  /\ events r.1 = events w.
Proof.
  intros Hf r. unfold r. rewrite (room_create_run _ _ _ Hf). cbv zeta. cbn [fst snd].
  set (h0 := hash_set _ ∅).
  assert (Hfind : find (put (put w (meta_key roomId) (mkEntry (VHash h0) None))
                          (meta_key roomId)
                          (mkEntry (VHash h0) (Some (now w + ROOM_TTL_SECONDS))))
                    (meta_key roomId)
                  = Some (mkEntry (VHash h0) (Some (now w + ROOM_TTL_SECONDS)))).
  { apply find_put_eq. unfold alive, ROOM_TTL_SECONDS. simpl. apply Z.ltb_lt. lia. }
  split; [reflexivity|]. split; [|split; [|split; [|split; [|split; [|split]]]]].
  - eexists _, h0. split; [exact Hfind|]. split; [reflexivity|].
    unfold h0, hash_set. simpl. rewrite lookup_insert_ne by done.
    apply lookup_insert_eq.
  - eexists _, h0. split; [exact Hfind|]. split; [reflexivity|].
    unfold h0, hash_set. simpl. apply lookup_insert_eq.
  - unfold remaining. rewrite Hfind. simpl. f_equal. unfold ROOM_TTL_SECONDS. lia.
  - intros d Hd. rewrite find_tick. simpl. rewrite lookup_insert_eq.
    unfold alive, ROOM_TTL_SECONDS. simpl.
    destruct (now w + Z.max 0 d <? now w + 60 * 10) eqn:E; [eauto|].
    apply Z.ltb_ge in E. lia.
  - intros d Hd. rewrite find_tick. simpl. rewrite lookup_insert_eq.
    unfold alive, ROOM_TTL_SECONDS. simpl.
    destruct (now w + Z.max 0 d <? now w + 60 * 10) eqn:E; [|done].
    apply Z.ltb_lt in E. lia.
  - intros k Hk. rewrite !find_put_ne by done. reflexivity.
  - reflexivity.
Qed.

(** X15.  The lifetime handler counts down with the store's clock: [d]
    seconds after a moment at which the room had [r] seconds left it
    answers [r - d], and 0 once [d] has reached [r]. *)
Theorem ttl_counts_down (auth : Session) (w : World) (r d : Z) :
  remaining w (meta_key (s_roomId auth)) = Some r ->
  0 <= d ->
  run (room_ttl auth) (tick d w) = (tick d w, inr (Z.max 0 (r - d))).
Proof.
  intros Hrem Hd. unfold remaining in Hrem.
  destruct (find w (meta_key (s_roomId auth))) as [e|] eqn:Hf; [|discriminate].
  destruct (e_exp e) as [deadline|] eqn:He; [|discriminate].
  injection Hrem as <-.
  pose proof (find_keys _ _ _ Hf) as Hk.
  unfold room_ttl. cbn [run]. simpl exec at 1. rewrite find_tick, Hk.
  unfold alive. rewrite He. simpl now.
  destruct (now w + Z.max 0 d <? deadline) eqn:E.
  - apply Z.ltb_lt in E. rewrite He. cbn [run]. f_equal. f_equal.
    destruct (0 <? deadline - (now w + Z.max 0 d)) eqn:E2; [lia|].
    apply Z.ltb_ge in E2. lia.
  - apply Z.ltb_ge in E. cbn [run]. f_equal. f_equal. simpl. lia.
Qed.

(** A command that only reads. *)
Lemma exec_reads c w w' x :
  match c with
  | HGETALL _ | HGET _ _ | TTL _ | EXISTS _ | LRANGE _ => True
  | _ => False
  end ->
  exec c w = Some (w', x) -> w' = w.
Proof.
  destruct c; try done; intros _; simpl.
  - destruct (find w k) as [e|]; [destruct (e_val e)|]; intros [=]; by subst.
  - destruct (find w k) as [e|]; [destruct (e_val e)|]; intros [=]; by subst.
  - destruct (find w k) as [e|]; [destruct (e_exp e)|]; intros [=]; by subst.
  - destruct (find w k) as [e|]; intros [=]; by subst.
  - destruct (find w k) as [e|]; [destruct (e_val e)|]; intros [=]; by subst.
Qed.

(** X9.  The two reading routes read: whatever the request and the
    world, asking for the remaining lifetime or for the messages leaves
    the store, the events and the clock exactly as they were. *)
Theorem reading_routes_change_nothing (req : ApiRequest) (w : World) :
  (run (serve JSON_parse JSON_stringify (RoomTtl req)) w).1 = w
  /\ (run (serve JSON_parse JSON_stringify (MessagesGet req)) w).1 = w.
Proof.
  pose proof (run_authenticate_world JSON_parse req w) as Hw.
  split; cbn [serve]; rewrite run_bind;
    destruct (run (authMiddleware JSON_parse req) w) as [w1 [err|auth]];
    simpl in Hw; subst w1; try reflexivity; rewrite run_bind.
  - unfold room_ttl. cbn [run].
    destruct (exec (TTL _) w) as [[w2 x]|] eqn:E; [|reflexivity].
    apply exec_reads in E; [|done]. by subst.
  - unfold messages_get. cbn [run].
    destruct (exec (LRANGE _) w) as [[w2 x]|] eqn:E; [|reflexivity].
    apply exec_reads in E; [|done]. by subst.
Qed.

(** X10.  A request the auth middleware refuses gets nothing done: on
    each of the four routes behind the middleware the answer is the
    middleware's error, and the store and the events are as before; in
    particular a refused delete publishes nothing and deletes nothing. *)
Theorem refused_requests_do_nothing (req : ApiRequest) (w w1 : World) (err : Exn)
    (id : string) (timestamp : Z) :
  run (authMiddleware JSON_parse req) w = (w1, inl err) ->
  run (serve JSON_parse JSON_stringify (RoomTtl req)) w = (w, inl err)
  /\ run (serve JSON_parse JSON_stringify (RoomDestroy req)) w = (w, inl err)
  /\ run (serve JSON_parse JSON_stringify (MessagesPost req id timestamp)) w = (w, inl err)
  /\ run (serve JSON_parse JSON_stringify (MessagesGet req)) w = (w, inl err).
Proof.
  intros Hauth.
  pose proof (run_authenticate_world JSON_parse req w) as Hw.
  rewrite Hauth in Hw. simpl in Hw. subst w1.
  repeat split; cbn [serve]; by rewrite run_bind, Hauth.
Qed.

End Rooms.

(** * Admissions in turn *)

Section InTurn.

Variable JSON_parse : string -> option JsVal.
Variable JSON_stringify : JsVal -> string.

(** What is asked of the JSON functions: an array of at most two tokens
    is written as a text that is not empty and that is read back. *)
Hypothesis stringify_nonempty : forall toks : list string,
  JSON_stringify (JArr (map JStr toks)) <> "".
Hypothesis parse_stringify : forall toks : list string,
  (length toks <= 2)%nat ->
  JSON_parse (JSON_stringify (JArr (map JStr toks))) = Some (JArr (map JStr toks)).

Lemma stored_read toks :
  (length toks <= 2)%nat ->
  proxy_connected JSON_parse (JStr (JSON_stringify (JArr (map JStr toks)))) = map JStr toks.
Proof.
  intros Hlen. unfold proxy_connected. simpl.
  destruct (String.eqb_spec (JSON_stringify (JArr (map JStr toks))) "") as [E|_].
  - by apply stringify_nonempty in E.
  - simpl. by rewrite parse_stringify.
Qed.

Lemma hash_nonempty (h : gmap string JsVal) field v : h !! field = Some v -> h <> ∅.
Proof. intros Hl ->. by rewrite lookup_empty in Hl. Qed.

(** One visit without a cookie of a room with the members [toks]. *)
Lemma visit_in_turn w pathname roomId toks token :
  room_match pathname = Some roomId ->
  has_members JSON_stringify w roomId toks ->
  (length toks <= 2)%nat ->
  exists w',
    run (proxy JSON_parse JSON_stringify pathname None token) w
    = (w', if (2 <=? length toks)%nat
           then inr (Redirect "/?error=room-full")
           else inr (Next (Some token)))
    /\ has_members JSON_stringify w' roomId
         (if (2 <=? length toks)%nat then toks else toks ++ [token])%list.
Proof.
  intros Hm (e & h & Hf & Hv & Hc) Hlen.
  rewrite (proxy_run_room _ _ _ _ _ _ _ _ _ Hm Hf Hv (hash_nonempty _ _ _ Hc)).
  cbv zeta. rewrite Hc. cbn [default id]. rewrite stored_read by done.
  cbn [recognized present]. rewrite length_map.
  destruct (2 <=? length toks)%nat eqn:Hfull.
  - exists w. split; [reflexivity|]. by exists e, h.
  - eexists. split; [reflexivity|].
    eexists _, _. split.
    { apply find_put_eq. apply find_alive in Hf. exact Hf. }
    split; [reflexivity|].
    rewrite lookup_insert_eq. by rewrite map_app.
Qed.

Lemma visit_all_full pathname roomId toks : forall tokens w,
  room_match pathname = Some roomId ->
  has_members JSON_stringify w roomId toks ->
  length toks = 2%nat ->
  visit_all JSON_parse JSON_stringify pathname tokens w
  = (w, repeat (inr (Redirect "/?error=room-full")) (length tokens)).
Proof.
  induction tokens as [|t tokens IH]; intros w Hm Hmem Hlen; [reflexivity|].
  cbn [visit_all].
  destruct (visit_in_turn w pathname roomId toks t Hm Hmem) as (w' & Hrun & _); [lia|].
  rewrite Hrun, Hlen. simpl Nat.leb. cbv iota.
  assert (Hw' : w' = w).
  { pose proof (f_equal fst Hrun) as E. simpl in E. rewrite <- E.
    destruct Hmem as (e & h & Hf & Hv & Hc).
    rewrite (proxy_run_room _ _ _ _ _ _ _ _ _ Hm Hf Hv (hash_nonempty _ _ _ Hc)).
    cbv zeta. rewrite Hc. cbn [default id]. rewrite stored_read by lia.
    cbn [recognized present]. rewrite length_map, Hlen. reflexivity. }
  subst w'. rewrite IH by done. reflexivity.
Qed.

(** X2.  A room is created under a free id and any number of browsers
    open its page one after the other, none with a cookie.  The first two
    are let in, each with its token as cookie; every later one is sent
    away with room-full; the membership left is the first two tokens in
    the order of arrival. *)
Theorem admissions_in_turn (w : World) (pathname roomId : string) (createdAt : Z)
    (tokens : list string) :
  room_match pathname = Some roomId ->
  find w (meta_key roomId) = None ->
  let w1 := (run (room_create JSON_stringify roomId createdAt) w).1 in
  let r := visit_all JSON_parse JSON_stringify pathname tokens w1 in
  r.2 = (map (fun t => inr (Next (Some t))) (take 2 tokens)
         ++ repeat (inr (Redirect "/?error=room-full")) (length tokens - 2))%list
  /\ has_members JSON_stringify r.1 roomId (take 2 tokens).
Proof.
  intros Hm Hf w1 r.
  assert (H0 : has_members JSON_stringify w1 roomId []).
  { by apply room_create_members. }
  unfold r. destruct tokens as [|t1 tokens]; [by split|].
  cbn [visit_all].
  destruct (visit_in_turn w1 pathname roomId [] t1 Hm H0) as (w2 & Hrun1 & H1);
    [simpl; lia|].
  simpl in H1, Hrun1. rewrite Hrun1.
  destruct tokens as [|t2 tokens]; [by split|].
  cbn [visit_all].
  destruct (visit_in_turn w2 pathname roomId [t1] t2 Hm H1) as (w3 & Hrun2 & H2);
    [simpl; lia|].
  simpl in H2, Hrun2. rewrite Hrun2.
  rewrite (visit_all_full pathname roomId [t1; t2] tokens w3 Hm H2 eq_refl).
  simpl. rewrite Nat.sub_0_r, take_0. by split.
Qed.

End InTurn.

(** * Posts and listings *)

Section Posts.

Variable JSON_parse : string -> option JsVal.
Variable JSON_stringify : JsVal -> string.

Lemma exec_LRANGE_log w roomId :
  log_ok w roomId ->
  exec (LRANGE (messages_key roomId)) w = Some (w, log_of w roomId).
Proof.
  unfold log_ok, log_of. simpl.
  destruct (find w (messages_key roomId)) as [e|]; [|done].
  by destruct (e_val e).
Qed.

(** A post to a room with [r] seconds left, from start to end. *)
Lemma messages_post_run auth sender text id timestamp w r :
  let roomId := s_roomId auth in
  let message := mk_message id sender text timestamp roomId (s_token auth) in
  remaining w (meta_key roomId) = Some r ->
  log_ok w roomId ->
  exists w',
    run (messages_post JSON_stringify auth sender text id timestamp) w
    = (w', inr (JObj [("message", message)]))
    /\ log_ok w' roomId
    /\ log_of w' roomId = (log_of w roomId ++ [JStr (JSON_stringify message)])%list
    /\ events w' = (events w ++ [mkEvent roomId "chat.message" message])%list
    /\ remaining w' (meta_key roomId) = Some r.
Proof.
  intros roomId message Hrem Hlog.
  pose proof (remaining_pos _ _ _ Hrem) as Hpos.
  destruct (remaining_is_Some _ _ _ Hrem) as [em Hem].
  set (entry := match find w (messages_key roomId) with
                | Some e => mkEntry (VList (log_of w roomId ++ [JStr (JSON_stringify message)])) (e_exp e)
                | None => mkEntry (VList [JStr (JSON_stringify message)]) None
                end).
  set (w1 := put w (messages_key roomId) entry).
  set (w2 := publish w1 (mkEvent roomId "chat.message" message)).
  assert (Hpush : exists n, exec (RPUSH (messages_key roomId) (JStr (JSON_stringify message))) w
                            = Some (w1, n)).
  { unfold w1, entry, log_of, log_ok in *. simpl.
    destruct (find w (messages_key roomId)) as [e|]; [|by eexists].
    destruct (e_val e); try done. by eexists. }
  destruct Hpush as [n Hpush].
  assert (Halive : alive (now w) entry = true).
  { unfold entry. destruct (find w (messages_key roomId)) as [e|] eqn:Hf; [|done].
    apply find_alive in Hf. exact Hf. }
  assert (Hval : e_val entry = VList (log_of w roomId ++ [JStr (JSON_stringify message)])).
  { unfold entry, log_of, log_ok in *.
    destruct (find w (messages_key roomId)) as [e|]; [|done]. by destruct (e_val e). }
  assert (Hmeta2 : remaining w2 (meta_key roomId) = Some r).
  { unfold remaining, w2, w1. rewrite find_publish.
    rewrite find_put_ne by keys_ne. exact Hrem. }
  assert (Hfind1 : find w2 (messages_key roomId) = Some entry).
  { unfold w2, w1. rewrite find_publish. by apply find_put_eq. }
  set (w' := expire_to (expire_to (expire_to w2 (messages_key roomId) r)
                          (history_key roomId) r) roomId r).
  assert (Hfind' : find w' (messages_key roomId)
                   = Some (mkEntry (e_val entry) (Some (now w2 + r)))).
  { unfold w'. rewrite find_expire_to_ne by keys_ne.
    rewrite find_expire_to_ne by keys_ne.
    unfold expire_to. rewrite Hfind1. apply find_put_eq.
    unfold alive. simpl. apply Z.ltb_lt. lia. }
  exists w'. split; [|split; [|split; [|split]]].
  - unfold messages_post. fold roomId. cbn [run]. simpl exec at 1.
    rewrite Hem. cbv beta iota. change (1 =? 0) with false. cbv iota. fold message.
    cbn [run]. rewrite Hpush.
    change (exec (EMIT roomId "chat.message" message) w1) with (Some (w2, tt)).
    assert (Httl : exec (TTL (meta_key roomId)) w2 = Some (w2, r)).
    { unfold remaining in Hmeta2. simpl.
      destruct (find w2 (meta_key roomId)) as [e|]; [|done].
      destruct (e_exp e); [|done]. by injection Hmeta2 as ->. }
    cbv beta iota. rewrite Httl, exec_all_expire3 by done. reflexivity.
  - unfold log_ok. rewrite Hfind'. simpl. by rewrite Hval.
  - unfold log_of at 1. rewrite Hfind'. simpl. by rewrite Hval.
  - unfold w'. by rewrite !events_expire_to.
  - unfold w'. rewrite !remaining_expire_to_ne by keys_ne. exact Hmeta2.
Qed.

(** X11.  A member posts to a room whose metadata key has [r] seconds
    left and whose log key is free or holds a list, and a member lists.
    When the text the post writes is one [JSON.parse] reads back, the
    listing is the listing of the log as it was, followed by the new
    message with all its fields; its [token] field holds the author's
    token when the reader is the author and is cleared when the reader is
    anyone else. *)
Theorem post_then_list (auth reader : Session) (sender text id : string)
    (timestamp : Z) (req : ApiRequest) (w : World) (r : Z) :
  let roomId := s_roomId auth in
  let message := mk_message id sender text timestamp roomId (s_token auth) in
  let w' := (run (messages_post JSON_stringify auth sender text id timestamp) w).1 in
  remaining w (meta_key roomId) = Some r ->
  log_ok w roomId ->
  roomId <> "" ->
  s_roomId reader = roomId ->
  JSON_parse (JSON_stringify message) = Some message ->
  run (messages_get JSON_parse reader req) w'
  = (w', inr (JObj [("messages",
        JArr (masked_messages JSON_parse (s_token reader) (log_of w roomId)
              ++ [JObj [("id", JStr id); ("sender", JStr sender); ("text", JStr text);
                        ("timestamp", JNum timestamp); ("roomId", JStr roomId);
                        ("token", if String.eqb (s_token auth) (s_token reader)
                                  then JStr (s_token reader) else JUndefined)]])%list)])).
Proof.
  intros roomId message w' Hrem Hlog Hroom Hreader Hrt.
  destruct (messages_post_run auth sender text id timestamp w r Hrem Hlog)
    as (w1 & Hrun & Hlog1 & Hlogof & _ & _).
  fold roomId message in Hrun, Hlog1, Hlogof.
  unfold w'. rewrite Hrun. cbn [fst].
  unfold messages_get. rewrite Hreader.
  destruct (String.eqb_spec roomId ""); [done|].
  cbn [run]. rewrite (exec_LRANGE_log _ _ Hlog1), Hlogof.
  rewrite masked_messages_app. do 5 f_equal.
  unfold masked_messages, present_entry. simpl. rewrite Hrt. reflexivity.
Qed.

(** X14.  Two posts, one served after the other, to a room whose
    metadata key has [r] seconds left and whose log key is free or holds
    a list: the log grows by the two encoded messages in the order of the
    posts and by nothing else, and the two events are published in that
    order. *)
Theorem posts_in_order (a1 a2 : Session) (sender1 text1 id1 sender2 text2 id2 : string)
    (t1 t2 : Z) (w : World) (r : Z) :
  let roomId := s_roomId a1 in
  let m1 := JObj [("id", JStr id1); ("sender", JStr sender1); ("text", JStr text1);
                  ("timestamp", JNum t1); ("roomId", JStr roomId);
                  ("token", JStr (s_token a1))] in
  let m2 := JObj [("id", JStr id2); ("sender", JStr sender2); ("text", JStr text2);
                  ("timestamp", JNum t2); ("roomId", JStr roomId);
                  ("token", JStr (s_token a2))] in
  let w1 := (run (messages_post JSON_stringify a1 sender1 text1 id1 t1) w).1 in
  let w2 := (run (messages_post JSON_stringify a2 sender2 text2 id2 t2) w1).1 in
  remaining w (meta_key roomId) = Some r ->
  log_ok w roomId ->
  s_roomId a2 = roomId ->
  log_of w2 roomId
  = (log_of w roomId ++ [JStr (JSON_stringify m1); JStr (JSON_stringify m2)])%list
  /\ events w2
     = (events w ++ [mkEvent roomId "chat.message" m1; mkEvent roomId "chat.message" m2])%list.
Proof.
  intros roomId m1 m2 w1 w2 Hrem Hlog Hroom.
  destruct (messages_post_run a1 sender1 text1 id1 t1 w r Hrem Hlog)
    as (x1 & Hrun1 & Hlog1 & Hlogof1 & Hev1 & Hrem1).
  fold roomId in Hrun1, Hlog1, Hlogof1, Hev1, Hrem1.
  change (mk_message id1 sender1 text1 t1 roomId (s_token a1)) with m1 in Hrun1, Hlogof1, Hev1.
  assert (Hw1 : w1 = x1) by (unfold w1; by rewrite Hrun1). rewrite <- Hw1 in *.
  rewrite <- Hroom in Hrem1, Hlog1.
  destruct (messages_post_run a2 sender2 text2 id2 t2 w1 r Hrem1 Hlog1)
    as (x2 & Hrun2 & _ & Hlogof2 & Hev2 & _).
  rewrite Hroom in Hrun2, Hlogof2, Hev2.
  change (mk_message id2 sender2 text2 t2 roomId (s_token a2)) with m2 in Hrun2, Hlogof2, Hev2.
  assert (Hw2 : w2 = x2) by (unfold w2; by rewrite Hrun2). rewrite <- Hw2 in *.
  split.
  - rewrite Hlogof2, Hlogof1, <- app_assoc. reflexivity.
  - rewrite Hev2, Hev1, <- app_assoc. reflexivity.
Qed.

End Posts.

(** * The room page *)

Lemma show_Z_inj a b : show_Z a = show_Z b -> a = b.
Proof.
  unfold show_Z. intros H.
  assert (Hn : forall n, Z.to_int n <> Decimal.Pos Decimal.Nil
                         /\ Z.to_int n <> Decimal.Neg Decimal.Nil).
  { intros [|p|p]; simpl; split; try discriminate; intros [= E];
      by apply Unsigned.to_uint_nonnil in E. }
  apply to_int_inj.
  assert (E : Some (Z.to_int a) = Some (Z.to_int b)).
  { rewrite <- (NilZero.isi (Z.to_int a)) by apply Hn.
    rewrite <- (NilZero.isi (Z.to_int b)) by apply Hn. by rewrite H. }
  by injection E.
Qed.

Lemma sapp_inj a : forall b x y,
  String.length a = String.length b -> a +:+ x = b +:+ y -> a = b /\ x = y.
Proof.
  induction a as [|c a IH]; intros [|d b] x y Hlen H; try discriminate.
  - done.
  - rewrite !sapp_cons in H. injection H as -> H. injection Hlen as Hlen.
    destruct (IH _ _ _ Hlen H) as [-> ->]. done.
Qed.

(** The seconds field, for each of the sixty values it can take. *)
Lemma two_digits (s : Z) :
  0 <= s < 60 ->
  padStart 2 (show_Z s) = String (digit (s / 10)) (String (digit (s mod 10)) "").
Proof.
  intros Hs. rewrite <- (Z2Nat.id s) by lia.
  assert (Hn : (Z.to_nat s < 60)%nat) by lia. revert Hn.
  generalize (Z.to_nat s). intros n Hn.
  do 60 (destruct n as [|n]; [reflexivity|]). lia.
Qed.

Lemma formatTimeRemaining_shape (s : Z) :
  0 <= s ->
  formatTimeRemaining s
  = show_Z (s / 60) +:+ ":"
    +:+ String (digit (s mod 60 / 10)) (String (digit (s mod 60 mod 10)) "").
Proof.
  intros Hs. unfold formatTimeRemaining. cbv zeta.
  rewrite Z.rem_mod_nonneg by lia. rewrite two_digits; [reflexivity|].
  apply Z.mod_pos_bound. lia.
Qed.

Lemma digit_inj a b : 0 <= a < 10 -> 0 <= b < 10 -> digit a = digit b -> a = b.
Proof.
  intros Ha Hb H. unfold digit in H.
  apply (f_equal nat_of_ascii) in H.
  rewrite !nat_ascii_embedding in H by lia. lia.
Qed.

(** X17.  The countdown on display, for a whole number of seconds that is
    not negative: the minutes in decimal, a colon, and the seconds as
    exactly two digits; two different times never read the same. *)
Theorem formatTimeRemaining_clock (a b : Z) :
  0 <= a ->
  0 <= b ->
  formatTimeRemaining a
  = show_Z (a / 60) +:+ ":"
    +:+ String (digit (a mod 60 / 10)) (String (digit (a mod 60 mod 10)) "")
  /\ (formatTimeRemaining a = formatTimeRemaining b -> a = b).
Proof.
  intros Ha Hb. split; [by apply formatTimeRemaining_shape|].
  rewrite !formatTimeRemaining_shape by done. intros H.
  assert (Hlen : String.length (show_Z (a / 60)) = String.length (show_Z (b / 60))).
  { apply (f_equal String.length) in H. rewrite !sapp_length in H. simpl in H. lia. }
  destruct (sapp_inj _ _ _ _ Hlen H) as [Hm Hs].
  apply show_Z_inj in Hm. injection Hs as H1 H2.
  pose proof (Z.mod_pos_bound a 60 ltac:(lia)) as Ba.
  pose proof (Z.mod_pos_bound b 60 ltac:(lia)) as Bb.
  apply digit_inj in H1;
    [|split; [apply Z.div_pos; lia|apply Z.div_lt_upper_bound; lia]..].
  apply digit_inj in H2; [|apply Z.mod_pos_bound; lia..].
  assert (Hmod : a mod 60 = b mod 60).
  { rewrite (Z.div_mod (a mod 60) 10), (Z.div_mod (b mod 60) 10) by lia. lia. }
  rewrite (Z.div_mod a 60), (Z.div_mod b 60) by lia. lia.
Qed.

Lemma countdownSecond_step (n : Z) :
  0 <= n -> countdownSecond (Some n) = Some (Z.max 0 (n - 1)).
Proof.
  intros Hn. unfold countdownSecond, countdownTick.
  destruct (n <=? 0) eqn:E0; [apply Z.leb_le in E0; f_equal; lia|].
  apply Z.leb_gt in E0.
  destruct (n <=? 1) eqn:E1; [apply Z.leb_le in E1|apply Z.leb_gt in E1]; f_equal; lia.
Qed.

(** X18.  The countdown of the page, second by second, from a number of
    seconds that is not negative: after [k] seconds it shows [n - k], and
    0 from the [n]th second on, never less; the browser is sent to the
    destroyed page exactly from then on.  While the lifetime has not been
    loaded there is no countdown and the browser stays. *)
Theorem countdown_runs_to_zero (n : Z) (k : nat) :
  0 <= n ->
  Nat.iter k countdownSecond (Some n) = Some (Z.max 0 (n - Z.of_nat k))
  /\ (leavesRoom (Nat.iter k countdownSecond (Some n)) = true <-> n <= Z.of_nat k)
  /\ Nat.iter k countdownSecond None = None
  /\ leavesRoom (Nat.iter k countdownSecond None) = false.
Proof.
  intros Hn.
  assert (Hnone : Nat.iter k countdownSecond None = None).
  { induction k as [|k IH]; [reflexivity|]. rewrite Nat.iter_succ, IH. reflexivity. }
  assert (Hiter : Nat.iter k countdownSecond (Some n) = Some (Z.max 0 (n - Z.of_nat k))).
  { clear Hnone. induction k as [|k IH]; [simpl; f_equal; lia|].
    rewrite Nat.iter_succ, IH, countdownSecond_step by lia. f_equal. lia. }
  split; [exact Hiter|]. split; [|split; [exact Hnone|rewrite Hnone; reflexivity]].
  rewrite Hiter. unfold leavesRoom. rewrite Z.eqb_eq. lia.
Qed.

(** X19.  When the lifetime the server reports arrives, the page keeps
    its own count only if it is within 5 seconds of the report, cut at 0;
    otherwise, and when it had none, it takes the report.  So after the
    update the count is a number within 5 seconds of the report, and it
    is not negative if it was not before.  While no report has arrived
    the count is left alone. *)
Theorem sync_within_five (ttl : Z) (prev : option Z) :
  (exists v,
      syncTimeRemaining (Some ttl) prev = Some v
      /\ Z.abs (v - clamp ttl) <= 5
      /\ (prev = None -> v = clamp ttl)
      /\ (forall p, prev = Some p -> v = p \/ (5 < Z.abs (p - clamp ttl) /\ v = clamp ttl))
      /\ (0 <= default 0 prev -> 0 <= v))
  /\ syncTimeRemaining None prev = prev
  /\ initialTimeRemaining (Some ttl) = Some (clamp ttl)
  /\ 0 <= clamp ttl.
Proof.
  assert (Hc : 0 <= clamp ttl).
  { unfold clamp. destruct (0 <? ttl) eqn:E; [apply Z.ltb_lt in E|]; lia. }
  split; [|by repeat split].
  unfold syncTimeRemaining. destruct prev as [p|].
  - destruct (5 <? Z.abs (p - clamp ttl)) eqn:E.
    + apply Z.ltb_lt in E. exists (clamp ttl). repeat split; try done; try lia.
      intros q [= <-]. right. done.
    + apply Z.ltb_ge in E. exists p. repeat split; try done.
      intros q [= <-]. by left.
  - exists (clamp ttl). repeat split; try done; lia.
Qed.

(** * Where the members of a room come from *)

Section ProvenanceProof.

Variable JSON_parse : string -> option JsVal.
Variable JSON_stringify : JsVal -> string.
Variable minted : string -> Prop.

Hypothesis parse_stringify : forall toks : list string,
  (length toks <= 2)%nat ->
  JSON_parse (JSON_stringify (JArr (map JStr toks))) = Some (JArr (map JStr toks)).

Lemma proxy_connected_minted v :
  minted_value JSON_stringify minted v ->
  exists toks, (length toks <= 2)%nat /\ Forall minted toks
               /\ proxy_connected JSON_parse v = map JStr toks.
Proof.
  intros [->|(toks & Hlen & Hall & ->)].
  - exists []. split; [simpl; lia|]. split; [constructor|reflexivity].
  - unfold proxy_connected. simpl.
    destruct (String.eqb _ ""); simpl.
    + exists []. split; [simpl; lia|]. split; [constructor|reflexivity].
    + rewrite parse_stringify by done. by exists toks.
Qed.

Lemma auth_connected_minted v :
  minted_value JSON_stringify minted v ->
  exists toks, Forall minted toks /\ auth_connected JSON_parse v = map JStr toks.
Proof.
  intros [->|(toks & Hlen & Hall & ->)].
  - exists []. split; [constructor|reflexivity].
  - unfold auth_connected. simpl.
    destruct (String.eqb _ ""); simpl.
    + exists []. split; [constructor|reflexivity].
    + rewrite parse_stringify by done. by exists toks.
Qed.

Lemma minted_hash_set fields h :
  minted_cmd JSON_stringify minted (HSET "" fields) ->
  minted_hash JSON_stringify minted h ->
  minted_hash JSON_stringify minted (hash_set fields h).
Proof.
  intros Hc Hh. unfold minted_hash in *.
  destruct (hash_set fields h !! "connected") as [v|] eqn:Hl; simpl; [|by left].
  destruct (hash_set_lookup _ _ _ _ Hl) as [Hin|Hold].
  - by apply Hc.
  - by rewrite Hold in Hh.
Qed.

Lemma minted_put w k e :
  minted_store JSON_stringify minted w ->
  (forall h, e_val e = VHash h -> minted_hash JSON_stringify minted h) ->
  minted_store JSON_stringify minted (put w k e).
Proof.
  intros Hw He k' e' h Hl Hv. unfold put in Hl. simpl in Hl.
  destruct (decide (k = k')) as [->|Hne].
  - rewrite lookup_insert_eq in Hl. injection Hl as <-. by apply He.
  - rewrite lookup_insert_ne in Hl by done. by eapply Hw.
Qed.

Lemma minted_drop w k :
  minted_store JSON_stringify minted w -> minted_store JSON_stringify minted (drop w k).
Proof.
  intros Hw k' e' h Hl Hv. unfold drop in Hl. simpl in Hl.
  apply lookup_delete_Some in Hl as [_ Hl]. by eapply Hw.
Qed.

Lemma exec_minted c w w' x :
  minted_store JSON_stringify minted w ->
  minted_cmd JSON_stringify minted c ->
  exec c w = Some (w', x) ->
  minted_store JSON_stringify minted w' /\ minted_res JSON_stringify minted c x.
Proof.
  intros Hw Hc. destruct c; simpl in *.
  - destruct (find w k) as [e|] eqn:Hf.
    + destruct (e_val e) as [h| |] eqn:Hv; try discriminate.
      intros [= <- <-]. split; [done|]. intros m. case_decide; [done|].
      intros [= <-]. apply find_keys in Hf. by eapply Hw.
    + intros [= <- <-]. done.
  - destruct (find w k) as [e|]; [destruct (e_val e) as [h| |]|]; intros [=]; by subst.
  - destruct (find w k) as [e|] eqn:Hf.
    + destruct (e_val e) as [h| |] eqn:Hv; try discriminate.
      intros [= <- <-]. split; [|done]. apply minted_put; [done|].
      simpl. intros h' [= <-]. apply minted_hash_set; [done|].
      apply find_keys in Hf. by eapply Hw.
    + intros [= <- <-]. split; [|done]. apply minted_put; [done|].
      simpl. intros h' [= <-]. apply minted_hash_set; [done|by left].
  - destruct (find w k) as [e|] eqn:Hf.
    + destruct (secs <=? 0); intros [= <- <-]; (split; [|done]).
      * by apply minted_drop.
      * apply minted_put; [done|]. simpl. intros h Hv.
        apply find_keys in Hf. by eapply Hw.
    + intros [= <- <-]. done.
  - destruct (find w k) as [e|]; [destruct (e_exp e)|]; intros [= <- <-]; done.
  - destruct (find w k); intros [= <- <-]; done.
  - destruct (find w k); intros [= <- <-]; (split; [by apply minted_drop|done]).
  - destruct (find w k) as [e|] eqn:Hf.
    + destruct (e_val e) as [|l|] eqn:Hv; try discriminate.
      intros [= <- <-]. split; [|done]. by apply minted_put.
    + intros [= <- <-]. split; [|done]. by apply minted_put.
  - destruct (find w k) as [e|]; [destruct (e_val e)|]; intros [=]; by subst.
  - intros [= <- <-]. done.
Qed.

Lemma mints_pending {R} cs (k : Prog R) :
  Forall (minted_cmd JSON_stringify minted) cs -> mints JSON_stringify minted k ->
  mints JSON_stringify minted (pending cs k).
Proof. intros Hcs Hk. destruct cs; [done|]. by split. Qed.

Lemma step_minted {R} choice (p : Prog R) : forall w w' p' c,
  minted_store JSON_stringify minted w ->
  mints JSON_stringify minted p ->
  step choice p w = Some (w', p', c) ->
  minted_store JSON_stringify minted w' /\ mints JSON_stringify minted p'.
Proof.
  induction p as [r|e|c0 k IH|cs k IH]; intros w w' p' c Hw Hp Hs; simpl in Hs;
    try discriminate.
  - destruct Hp as [Hc Hk].
    destruct (exec c0 w) as [[w1 x]|] eqn:He.
    + injection Hs as <- <- <-.
      destruct (exec_minted _ _ _ _ Hw Hc He) as [Hw1 Hx]. split; [done|]. by apply Hk.
    + injection Hs as <- <- <-. done.
  - destruct Hp as [Hcs Hk].
    destruct cs as [|c1 cs]; [by eapply IH|].
    destruct ((c1 :: cs) !! choice) as [cmd|] eqn:Hl; [|discriminate].
    assert (Hcmd : minted_cmd JSON_stringify minted cmd).
    { eapply List.Forall_forall; [exact Hcs|]. apply (proj1 (list_elem_of_In _ _)).
      eapply list_elem_of_lookup_2. exact Hl. }
    destruct (exec cmd w) as [[w1 x]|] eqn:He.
    + injection Hs as <- <- <-.
      destruct (exec_minted _ _ _ _ Hw Hcmd He) as [Hw1 _]. split; [done|].
      apply mints_pending; [|done].
      apply List.Forall_forall. intros y Hy. eapply List.Forall_forall; [exact Hcs|].
      apply (proj1 (list_elem_of_In _ _)). rewrite (delete_Permutation _ _ _ Hl).
      apply list_elem_of_In in Hy. by right.
    + injection Hs as <- <- <-. done.
Qed.

Lemma mints_bind {A B} (p : Prog A) (f : A -> Prog B) :
  mints JSON_stringify minted p -> (forall a, mints JSON_stringify minted (f a)) ->
  mints JSON_stringify minted (bind p f).
Proof.
  intros Hp Hf. induction p as [a|e|c k IH|cs k IH]; simpl in *.
  - apply Hf.
  - done.
  - destruct Hp as [Hc Hk]. split; [done|]. intros x Hx. apply IH. by apply Hk.
  - destruct Hp as [Hcs Hk]. split; [done|]. by apply IH.
Qed.

Lemma mints_proxy pathname existingToken token :
  minted token ->
  mints JSON_stringify minted (proxy JSON_parse JSON_stringify pathname existingToken token).
Proof.
  intros Htok. unfold proxy. destruct (room_match pathname) as [roomId|]; [|done].
  split; [done|]. intros [m|] Hm; [|done].
  specialize (Hm m eq_refl).
  destruct (proxy_connected_minted _ Hm) as (toks & Hlen & Hall & ->).
  destruct (recognized _ _); [done|].
  destruct (2 <=? length (map JStr toks))%nat eqn:Hfull; [done|].
  apply Nat.leb_gt in Hfull. rewrite length_map in Hfull.
  split; [|done]. intros v [[= <-]|[]]. right. exists (toks ++ [token])%list.
  split; [|split].
  - rewrite length_app. simpl. lia.
  - apply Forall_app. split; [done|]. by constructor.
  - by rewrite map_app.
Qed.

Lemma mints_authMiddleware req : mints JSON_stringify minted (authMiddleware JSON_parse req).
Proof.
  unfold authMiddleware.
  destruct (present (q_roomId req)); [|done]. destruct (present (cookie req)); [|done].
  split; [done|]. intros x _. by destruct (includes _ _).
Qed.

Lemma mints_serve r :
  minted_act minted (Arrive r) ->
  mints JSON_stringify minted (serve JSON_parse JSON_stringify r).
Proof.
  destruct r as [pathname existingToken token|roomId createdAt|req|req|req id ts|req];
    cbn [serve minted_act]; intros Hr.
  - apply mints_bind; [by apply mints_proxy|done].
  - apply mints_bind; [|done]. split.
    + intros v [[= <-]|[[=]|[]]]. right. exists [].
      split; [simpl; lia|]. split; [constructor|reflexivity].
    + done.
  - apply mints_bind; [apply mints_authMiddleware|]. intros auth.
    apply mints_bind; [|done]. by split.
  - apply mints_bind; [apply mints_authMiddleware|]. intros auth.
    apply mints_bind; [|done]. split; [done|]. intros _ _. split; [|done].
    by repeat constructor.
  - apply mints_bind; [apply mints_authMiddleware|]. intros auth.
    destruct (parse_body (body req)) as [[sender text]|]; [|done].
    apply mints_bind; [|done]. unfold messages_post. split; [done|]. intros n _.
    destruct (n =? 0); [done|]. split; [done|]. intros _ _. split; [done|]. intros _ _.
    split; [done|]. intros t _. split; [|done]. by repeat constructor.
  - apply mints_bind; [apply mints_authMiddleware|]. intros auth.
    apply mints_bind; [|done]. by split.
Qed.

Lemma sys_step_minted s a :
  minted_act minted a ->
  minted_sys JSON_stringify minted s ->
  minted_sys JSON_stringify minted (sys_step JSON_parse JSON_stringify s a).
Proof.
  intros Ha [Hw Hp]. destruct a as [r|tid choice|secs]; simpl.
  - split; [done|]. apply Forall_app. split; [done|].
    constructor; [by apply mints_serve|constructor].
  - destruct (pool s !! tid) as [p|] eqn:Hl; [|by split].
    destruct (step choice p (world s)) as [[[w' p'] c]|] eqn:Hs; [|by split].
    assert (Hsafe : mints JSON_stringify minted p).
    { eapply List.Forall_forall; [exact Hp|]. apply (proj1 (list_elem_of_In _ _)).
      eapply list_elem_of_lookup_2. exact Hl. }
    destruct (step_minted _ _ _ _ _ _ Hw Hsafe Hs) as [Hw' Hp'].
    split; [done|]. simpl. apply Forall_insert; done.
  - by split.
Qed.

Lemma sys_run_minted acts : forall s,
  List.Forall (minted_act minted) acts ->
  minted_sys JSON_stringify minted s ->
  minted_sys JSON_stringify minted (sys_run JSON_parse JSON_stringify s acts).
Proof.
  induction acts as [|a acts IH]; intros s Hacts Hs; [done|].
  inversion Hacts as [|? ? Ha Hrest]; subst.
  apply IH; [done|]. by apply sys_step_minted.
Qed.

(** The session the middleware derives on a store of minted memberships
    carries a minted token. *)
Lemma authMiddleware_minted req w w' session :
  minted_store JSON_stringify minted w ->
  run (authMiddleware JSON_parse req) w = (w', inr session) ->
  minted (s_token session).
Proof.
  intros Hw. unfold authMiddleware.
  destruct (present (q_roomId req)) as [roomId|]; [|discriminate].
  destruct (present (cookie req)) as [token|]; [|discriminate].
  cbn [run]. simpl exec at 1.
  destruct (find w (meta_key roomId)) as [e|] eqn:Hf; [|discriminate].
  destruct (e_val e) as [h| |] eqn:Hv; try discriminate.
  cbv beta iota.
  apply find_keys in Hf. specialize (Hw _ _ _ Hf Hv). unfold minted_hash in Hw.
  destruct (h !! "connected") as [v|]; cbn [default id] in *; [|discriminate].
  destruct (auth_connected_minted _ Hw) as (toks & Hall & ->).
  destruct (includes (map JStr toks) token) eqn:Hin; [|discriminate].
  intros [= _ <-]. cbn [s_token].
  apply includes_In in Hin. apply in_map_iff in Hin as (t & [= ->] & Hin).
  eapply List.Forall_forall; [exact Hall|exact Hin].
Qed.

End ProvenanceProof.

Lemma visit_tokens_minted acts :
  List.Forall (minted_act (fun t => In t (visit_tokens acts))) acts.
Proof.
  apply List.Forall_forall. intros a Ha.
  destruct a as [[pathname existingToken token| | | | |]| |]; try exact I.
  simpl. unfold visit_tokens. apply in_flat_map. exists (Arrive (Visit pathname existingToken token)).
  split; [exact Ha|by left].
Qed.

(** X8.  No one is a member without having been let in.  Whatever
    requests arrive at a server that starts with an empty store, however
    their commands interleave and time passes: a request that the auth
    middleware accepts carries a token that [nanoid()] gave to one of the
    page requests.  No request to the API writes itself into a room. *)
Theorem accepted_tokens_were_granted (JSON_parse : string -> option JsVal)
    (JSON_stringify : JsVal -> string) (acts : list Act) (req : ApiRequest)
    (w' : World) (session : Session) :
  (forall toks : list string,
      (length toks <= 2)%nat ->
      JSON_parse (JSON_stringify (JArr (map JStr toks))) = Some (JArr (map JStr toks))) ->
  run (authMiddleware JSON_parse req) (world (sys_run JSON_parse JSON_stringify sys0 acts))
  = (w', inr session) ->
  In (s_token session) (visit_tokens acts).
Proof.
  intros Hrt Hauth.
  assert (H0 : minted_sys JSON_stringify (fun t => In t (visit_tokens acts)) sys0).
  { split; [|constructor]. intros k e h Hl. cbn in Hl. by rewrite lookup_empty in Hl. }
  destruct (sys_run_minted JSON_parse JSON_stringify _ Hrt acts sys0
              (visit_tokens_minted acts) H0) as [Hw _].
  exact (authMiddleware_minted JSON_parse JSON_stringify _ Hrt req _ _ _ Hw Hauth).
Qed.

(** * The post route from end to end *)

Section PostRoute.

Variable JSON_parse : string -> option JsVal.
Variable JSON_stringify : JsVal -> string.



Lemma steps_Call {R} choice rest cmd (k : Res cmd -> Prog R) w w' x :
  exec cmd w = Some (w', x) ->
  steps (choice :: rest) (Call cmd k) w
  = let '(tr, q, w'') := steps rest (k x) w' in (cmd :: tr, q, w'').
Proof. intros H. cbn [steps step]. by rewrite H. Qed.

Lemma put_comm w k1 k2 e1 e2 :
  k1 <> k2 -> put (put w k1 e1) k2 e2 = put (put w k2 e2) k1 e1.
Proof. intros Hne. unfold put. simpl. f_equal. by apply insert_insert_ne. Qed.

Lemma expire_to_comm w k1 k2 secs :
  k1 <> k2 ->
  expire_to (expire_to w k1 secs) k2 secs = expire_to (expire_to w k2 secs) k1 secs.
Proof.
  intros Hne. unfold expire_to at 1 3.
  rewrite (find_expire_to_ne w k1 k2) by done.
  rewrite (find_expire_to_ne w k2 k1) by (by apply not_eq_sym).
  unfold expire_to.
  destruct (find w k1) as [e1|] eqn:H1; destruct (find w k2) as [e2|] eqn:H2;
    rewrite ?H1, ?H2; try reflexivity.
  simpl. by apply put_comm.
Qed.

(** Three expirations of three different keys, awaited together and
    served in any order. *)
Lemma steps_expire3 {R} w k1 k2 k3 r first second (v : R) :
  0 < r -> k1 <> k2 -> k1 <> k3 -> k2 <> k3 ->
  (first < 3)%nat -> (second < 2)%nat ->
  exists tr,
    steps [first; second; 0%nat] (All [EXPIRE k1 r; EXPIRE k2 r; EXPIRE k3 r] (Ret v)) w
    = (tr, Ret v, expire_to (expire_to (expire_to w k1 r) k2 r) k3 r)
    /\ tr ≡ₚ [EXPIRE k1 r; EXPIRE k2 r; EXPIRE k3 r].
Proof.
  intros Hpos H12 H13 H23 Hfirst Hsecond.
  assert (Hex : forall w0 k, exists n, exec (EXPIRE k r) w0 = Some (expire_to w0 k r, n)).
  { intros w0 k. by apply exec_EXPIRE_pos. }
  destruct first as [|[|[|first]]]; [| | |lia];
    (destruct second as [|[|second]]; [| |lia]);
    cbn -[exec expire_to].
  all: repeat match goal with
         | |- context [exec (EXPIRE ?k _) ?w0] =>
             let n := fresh "n" in destruct (Hex w0 k) as [n ->]; cbn -[exec expire_to]
         end.
  all: eexists; split; [f_equal|].
  all: try reflexivity.
  all: try solve [
    rewrite ?(expire_to_comm _ k3 k2) by (by apply not_eq_sym);
    rewrite ?(expire_to_comm _ k3 k1) by (by apply not_eq_sym);
    rewrite ?(expire_to_comm _ k2 k1) by (by apply not_eq_sym);
    rewrite ?(expire_to_comm _ k3 k2) by (by apply not_eq_sym);
    rewrite ?(expire_to_comm _ k3 k1) by (by apply not_eq_sym);
    reflexivity ].
  all: try solve
    [ apply perm_swap
    | apply perm_skip; apply perm_swap
    | etrans; [apply perm_swap|apply perm_skip; apply perm_swap]
    | etrans; [apply perm_skip; apply perm_swap|apply perm_swap]
    | etrans; [apply perm_swap|]; etrans; [apply perm_skip; apply perm_swap|apply perm_swap] ].
Qed.

(** X13.  The three expirations a post awaits together may be served in
    any order: whichever one the store picks first and whichever it picks
    next, the post ends with the same answer in the same world as when
    they are served in the order written. *)
Theorem post_expirations_in_any_order (auth : Session) (sender text id : string)
    (timestamp : Z) (w : World) (r : Z) (first second : nat) :
  remaining w (meta_key (s_roomId auth)) = Some r ->
  log_ok w (s_roomId auth) ->
  (first < 3)%nat ->
  (second < 2)%nat ->
  exists tr,
    steps [0; 0; 0; 0; first; second; 0]%nat
      (messages_post JSON_stringify auth sender text id timestamp) w
    = (tr, Ret (JObj [("message",
                       mk_message id sender text timestamp (s_roomId auth) (s_token auth))]),
       (run (messages_post JSON_stringify auth sender text id timestamp) w).1)
    /\ tr ≡ₚ [EXISTS (meta_key (s_roomId auth));
               RPUSH (messages_key (s_roomId auth))
                 (JStr (JSON_stringify
                          (mk_message id sender text timestamp (s_roomId auth) (s_token auth))));
               EMIT (s_roomId auth) "chat.message"
                 (mk_message id sender text timestamp (s_roomId auth) (s_token auth));
               TTL (meta_key (s_roomId auth));
               EXPIRE (messages_key (s_roomId auth)) r;
               EXPIRE (history_key (s_roomId auth)) r;
               EXPIRE (s_roomId auth) r].
Proof.
  intros Hrem Hlog Hfirst Hsecond.
  set (roomId := s_roomId auth) in *.
  set (message := mk_message id sender text timestamp roomId (s_token auth)).
  pose proof (remaining_pos _ _ _ Hrem) as Hpos.
  destruct (remaining_is_Some _ _ _ Hrem) as [em Hem].
  destruct (exec (RPUSH (messages_key roomId) (JStr (JSON_stringify message))) w)
    as [[w1 n]|] eqn:Hpush.
  2:{ exfalso. unfold log_ok in Hlog. simpl in Hpush.
      destruct (find w (messages_key roomId)) as [e|]; [|discriminate].
      destruct (e_val e); try done. }
  set (w2 := publish w1 (mkEvent roomId "chat.message" message)).
  assert (Hmeta2 : find w2 (meta_key roomId) = find w (meta_key roomId)).
  { unfold w2. rewrite find_publish. simpl in Hpush.
    destruct (find w (messages_key roomId)) as [e|].
    - destruct (e_val e); try discriminate. injection Hpush as <- _.
      by rewrite find_put_ne by keys_ne.
    - injection Hpush as <- _. by rewrite find_put_ne by keys_ne. }
  assert (Hnow : now w1 = now w).
  { simpl in Hpush. destruct (find w (messages_key roomId)) as [e|].
    - destruct (e_val e); try discriminate. by injection Hpush as <- _.
    - by injection Hpush as <- _. }
  assert (Httl : exec (TTL (meta_key roomId)) w2 = Some (w2, r)).
  { simpl. rewrite Hmeta2, Hem. unfold remaining in Hrem. rewrite Hem in Hrem.
    destruct (e_exp em) as [deadline|]; [|discriminate]. injection Hrem as <-.
    by rewrite Hnow. }
  assert (Hrun : (run (messages_post JSON_stringify auth sender text id timestamp) w).1
                 = expire_to (expire_to (expire_to w2 (messages_key roomId) r)
                                (history_key roomId) r) roomId r).
  { unfold messages_post. fold roomId. cbn [run]. simpl exec at 1.
    rewrite Hem. cbv beta iota. change (1 =? 0) with false. cbv iota. fold message.
    cbn [run]. rewrite Hpush.
    change (exec (EMIT roomId "chat.message" message) w1) with (Some (w2, tt)).
    cbv beta iota. rewrite Httl, exec_all_expire3 by done. reflexivity. }
  rewrite Hrun.
  assert (Hexists : exec (EXISTS (meta_key roomId)) w = Some (w, 1)).
  { simpl. by rewrite Hem. }
  assert (Hemit : exec (EMIT roomId "chat.message" message) w1 = Some (w2, tt))
    by reflexivity.
  unfold messages_post. fold roomId.
  erewrite steps_Call by exact Hexists.
  cbv beta iota. change (1 =? 0) with false. cbv iota. fold message.
  erewrite steps_Call by exact Hpush.
  erewrite steps_Call by exact Hemit.
  erewrite steps_Call by exact Httl.
  destruct (steps_expire3 w2 (messages_key roomId) (history_key roomId) roomId r
              first second (JObj [("message", message)]) Hpos
              ltac:(keys_ne) ltac:(keys_ne) ltac:(keys_ne) Hfirst Hsecond)
    as (tr3 & -> & Hperm).
  eexists. split; [reflexivity|]. by do 4 apply perm_skip.
Qed.

End PostRoute.

(** * Instances of the further properties *)

Lemma json_stringify_array_nonempty (toks : list string) :
  Json.stringify (JArr (map JStr toks)) <> "".
Proof. cbn [Json.stringify]. rewrite sapp_cons. discriminate. Qed.

Lemma membership_never_exceeds_two_witness :
  (length (proxy_connected Json.parse
             (JStr (Json.stringify (JArr [JStr "visitor-10"])))) <= 2)%nat
  /\ (length (auth_connected Json.parse
                (JStr (Json.stringify (JArr [JStr "visitor-10"])))) <= 2)%nat.
Proof.
  apply (membership_never_exceeds_two Json.parse Json.stringify
           (fun toks _ => json_parse_stringify toks) ten_racing "room1").
  vm_compute. reflexivity.
Defined.

Lemma admissions_in_turn_witness :
  (visit_all Json.parse Json.stringify "/room/room1" ["a"; "b"; "c"; "d"]
     (run (room_create Json.stringify "room1" 0) w0).1).2
  = [inr (Next (Some "a")); inr (Next (Some "b"));
     inr (Redirect "/?error=room-full"); inr (Redirect "/?error=room-full")].
Proof.
  refine (proj1 (admissions_in_turn Json.parse Json.stringify
                   json_stringify_array_nonempty (fun toks _ => json_parse_stringify toks)
                   w0 "/room/room1" "room1" 0 ["a"; "b"; "c"; "d"] _ _)).
  - reflexivity.
  - reflexivity.
Defined.

Lemma h_full_nonempty : h_full <> ∅.
Proof.
  intros E. apply (f_equal (fun m : gmap string JsVal => m !! "createdAt")) in E.
  vm_compute in E. discriminate.
Qed.

Lemma h_half_nonempty : h_half <> ∅.
Proof.
  intros E. apply (f_equal (fun m : gmap string JsVal => m !! "createdAt")) in E.
  vm_compute in E. discriminate.
Qed.

Lemma visit_full_room_witness :
  run (proxy Json.parse Json.stringify "/room/room1" (Some "stranger") "visitor-3") w_full
  = (w_full, inr (Redirect "/?error=room-full")).
Proof.
  refine (proj1 (visit_full_room Json.parse Json.stringify w_full "/room/room1" "room1"
                   (Some "stranger") "visitor-3" (mkEntry (VHash h_full) (Some 600)) h_full
                   _ _ _ _ _ _)).
  - reflexivity.
  - vm_compute. reflexivity.
  - reflexivity.
  - exact h_full_nonempty.
  - vm_compute. reflexivity.
  - vm_compute. lia.
Defined.

Lemma visit_grants_witness :
  exists w',
    run (proxy Json.parse Json.stringify "/room/room1" None "visitor-2") w_half
    = (w', inr (Next (Some "visitor-2")))
    /\ events w' = events w_half.
Proof.
  destruct (visit_grants Json.parse Json.stringify w_half "/room/room1" "room1" None
              "visitor-2" (mkEntry (VHash h_half) (Some 600)) h_half)
    as (w' & e' & h' & Hrun & _ & _ & _ & _ & _ & _ & Hev & _).
  - reflexivity.
  - vm_compute. reflexivity.
  - reflexivity.
  - exact h_half_nonempty.
  - vm_compute. reflexivity.
  - vm_compute. lia.
  - exists w'. split; assumption.
Defined.

Lemma granted_token_is_accepted_witness :
  let w' := (run (proxy Json.parse Json.stringify "/room/room1" None "visitor-2") w_half).1 in
  run (authMiddleware Json.parse (api "visitor-2" JUndefined)) w'
  = (w', inr (mkSession "room1" "visitor-2" [JStr "visitor-1"; JStr "visitor-2"])).
Proof.
  refine (proj1 (granted_token_is_accepted Json.parse Json.stringify w_half "/room/room1"
                   "room1" None "visitor-2" (mkEntry (VHash h_half) (Some 600)) h_half
                   JUndefined "visitor-3" _ _ _ _ _ _ _ _ _)).
  - reflexivity.
  - vm_compute. reflexivity.
  - reflexivity.
  - exact h_half_nonempty.
  - vm_compute. reflexivity.
  - vm_compute. lia.
  - discriminate.
  - vm_compute. discriminate.
  - vm_compute. reflexivity.
Defined.

Lemma visit_keeps_expirations_witness :
  exists e',
    find (run (proxy Json.parse Json.stringify "/room/room1" None "visitor-2") w_half).1
      (meta_key "room1") = Some e'
    /\ e_exp e' = Some 600.
Proof.
  apply (visit_keeps_expirations Json.parse Json.stringify w_half "/room/room1" None
           "visitor-2" (meta_key "room1") (mkEntry (VHash h_half) (Some 600))).
  vm_compute. reflexivity.
Defined.

Lemma room_create_fresh_witness :
  remaining (run (room_create Json.stringify "room1" 0) w0).1 (meta_key "room1") = Some 600.
Proof.
  refine (proj1 (proj2 (proj2 (proj2
            (room_create_fresh Json.stringify w0 "room1" 0 _))))).
  reflexivity.
Defined.

Lemma ttl_counts_down_witness :
  run (room_ttl alice) (tick 100 w_half) = (tick 100 w_half, inr 200).
Proof.
  apply (ttl_counts_down alice w_half 300 100).
  - vm_compute. reflexivity.
  - lia.
Defined.

Lemma refused_requests_do_nothing_witness :
  run (serve Json.parse Json.stringify (RoomDestroy (api "stranger" JUndefined))) w_full
  = (w_full, inl (AuthError "Invalid token")).
Proof.
  refine (proj1 (proj2 (refused_requests_do_nothing Json.parse Json.stringify
                          (api "stranger" JUndefined) w_full w_full
                          (AuthError "Invalid token") "m1" 0 _))).
  vm_compute. reflexivity.
Defined.

Lemma post_then_list_witness :
  let w' := (run (messages_post Json.stringify alice "alice" "hi" "m1" 1000) w_full).1 in
  run (messages_get Json.parse bob (api "visitor-2" JUndefined)) w'
  = (w', inr (JObj [("messages",
        JArr [JObj [("id", JStr "m1"); ("sender", JStr "alice"); ("text", JStr "hi");
                    ("timestamp", JNum 1000); ("roomId", JStr "room1");
                    ("token", JUndefined)]])])).
Proof.
  refine (post_then_list Json.parse Json.stringify alice bob "alice" "hi" "m1" 1000
            (api "visitor-2" JUndefined) w_full 600 _ _ _ _ _).
  - vm_compute. reflexivity.
  - vm_compute. exact I.
  - discriminate.
  - reflexivity.
  - vm_compute. reflexivity.
Defined.

Lemma posts_in_order_witness :
  let w1 := (run (messages_post Json.stringify alice "alice" "hi" "m1" 1000) w_full).1 in
  let w2 := (run (messages_post Json.stringify bob "bob" "hello" "m2" 2000) w1).1 in
  log_of w2 "room1"
  = [JStr (Json.stringify (mk_message "m1" "alice" "hi" 1000 "room1" "visitor-1"));
     JStr (Json.stringify (mk_message "m2" "bob" "hello" 2000 "room1" "visitor-2"))].
Proof.
  refine (proj1 (posts_in_order Json.stringify alice bob "alice" "hi" "m1" "bob" "hello" "m2"
                   1000 2000 w_full 600 _ _ _)).
  - vm_compute. reflexivity.
  - vm_compute. exact I.
  - reflexivity.
Defined.

Lemma formatTimeRemaining_clock_witness :
  formatTimeRemaining 65 = "1:05".
Proof.
  refine (proj1 (formatTimeRemaining_clock 65 125 _ _)); lia.
Defined.

Lemma countdown_runs_to_zero_witness :
  Nat.iter 5 countdownSecond (Some 3) = Some 0.
Proof.
  refine (proj1 (countdown_runs_to_zero 3 5 _)). lia.
Defined.

Lemma accepted_tokens_were_granted_witness :
  In "visitor-2" (visit_tokens scenario).
Proof.
  apply (accepted_tokens_were_granted Json.parse Json.stringify scenario
           (api "visitor-2" JUndefined)
           (world (sys_run Json.parse Json.stringify sys0 scenario))
           (mkSession "room1" "visitor-2" [JStr "visitor-1"; JStr "visitor-2"])
           (fun toks _ => json_parse_stringify toks)).
  vm_compute. reflexivity.
Defined.


Lemma post_expirations_in_any_order_witness :
  exists tr,
    steps [0; 0; 0; 0; 2; 1; 0]%nat
      (messages_post Json.stringify alice "alice" "hi" "m1" 1000) w_full
    = (tr, Ret (JObj [("message", mk_message "m1" "alice" "hi" 1000 "room1" "visitor-1")]),
       (run (messages_post Json.stringify alice "alice" "hi" "m1" 1000) w_full).1).
Proof.
  destruct (post_expirations_in_any_order Json.stringify alice "alice" "hi" "m1" 1000
              w_full 600 2 1) as (tr & Hsteps & _).
  - vm_compute. reflexivity.
  - vm_compute. exact I.
  - lia.
  - lia.
  - exists tr. exact Hsteps.
Defined.
